(** * Portis web3 provider: request pipeline, synchronous facade and widget
    channel of [packages/portis-web3/src/index.ts].

    The class [Portis] is embedded as a record of its fields together with
    one function per method.  JavaScript values are a small inductive type
    with the language's truthiness written out; objects are finite maps from
    property names to values.  An [async] function is embedded by what it
    does once the promises it awaits have settled: a promise is given by its
    eventual outcome, and an [await] on a promise that never fulfils leaves
    the function suspended for ever. *)

From stdpp Require Import base option list strings gmap pretty.
From Stdlib Require Import ZArith Lia.

Open Scope Z_scope.

(** ** JavaScript values *)

#[warnings="-register-all"]
Inductive jsval : Type :=
  | JUndefined
  | JNull
  | JBool (b : bool)
  | JNum (n : Z)
  | JStr (s : string)
  | JArr (items : list jsval)
  | JObj (props : gmap string jsval).

Abbreviation object := (gmap string jsval).

(** ToBoolean: [undefined], [null], [false], [0] and [''] are falsy; every
    array and every object is truthy, the empty array included. *)
Definition truthy (v : jsval) : bool :=
  match v with
  | JUndefined | JNull => false
  | JBool b => b
  | JNum n => negb (Z.eqb n 0)
  | JStr s => negb (String.eqb s "")
  | JArr _ | JObj _ => true
  end.

(** [Array.isArray] *)
Definition isArray (v : jsval) : bool :=
  match v with JArr _ => true | _ => false end.

(** Strict equality [lit === v] against a string literal. *)
Definition strict_eq_str (lit : string) (v : jsval) : bool :=
  match v with JStr s => String.eqb lit s | _ => false end.

(** [lits.indexOf(item)] for an array literal of strings: the index of the
    first strictly equal element, [-1] when there is none. *)
Fixpoint indexOf_from (lits : list string) (item : jsval) (i : Z) : Z :=
  match lits with
  | [] => -1
  | l :: rest => if strict_eq_str l item then i else indexOf_from rest item (i + 1)
  end.

Definition indexOf (lits : list string) (item : jsval) : Z :=
  indexOf_from lits item 0.

(** [Object.assign(target, ...sources)]: the properties of each source are
    copied onto the target in turn, later sources overwriting earlier ones. *)
Definition Object_assign (target : object) (sources : list object) : object :=
  foldl (λ acc src, src ∪ acc) target sources.

(** ** Interfaces ([interfaces.ts]) *)

Record INetwork := {
  nodeUrl : string;
  chainId : option Z;
  nodeProtocol : option string
}.

Record ISDKConfig := {
  dappId : jsval;
  network : INetwork;
  version : string;
  defaultEmail : option string;
  scope : jsval
}.

Record IOptions := { options_scope : jsval }.

Record IPayload := {
  payload_id : jsval;
  payload_jsonrpc : jsval;
  payload_method : string;
  payload_params : list jsval
}.

(** The [{ error, result }] pair every remote call resolves to. *)
Record reply := { error : jsval; result : jsval }.

(** Eventual outcome of a promise. *)
Inductive settle (A : Type) : Type :=
  | Fulfilled (a : A)
  | Rejected
  | Pending.
Arguments Fulfilled {A} a.
Arguments Rejected {A}.
Arguments Pending {A}.

(** The remote method table imported from the widget
    ([AsyncMethodReturns<IConnectionMethods>]). *)
Record IConnectionMethods := {
  remote_getAccounts : ISDKConfig → settle reply;
  remote_signTransaction : object → ISDKConfig → settle reply;
  remote_signMessage : object → ISDKConfig → settle reply;
  remote_relay : IPayload → ISDKConfig → settle reply;
  remote_showPortis : ISDKConfig → settle unit;
  remote_login : ISDKConfig → settle unit
}.

(** ** Observable effects *)

Inductive remoteCall :=
  | RGetAccounts (c : ISDKConfig)
  | RSignTransaction (txParams : object) (c : ISDKConfig)
  | RSignMessage (msgParams : object) (c : ISDKConfig)
  | RRelay (p : IPayload) (c : ISDKConfig)
  | RShowPortis (c : ISDKConfig)
  | RLogin (c : ISDKConfig).

Inductive stageName :=
  | Fixture | Cache | Subscriptions | Filter | Nonce | HookedWallet | Relay.

Global Instance stageName_eq_dec : EqDecision stageName.
Proof. solve_decision. Defined.

Inductive event :=
  | EvCreateElement (tag : string)
  | EvAppendChild (parent child : string)
  | EvConnectToChild (url appendTo : string) (methods : list string)
  | EvAddEventListener (type : string)
  | EvAwait (pid : nat)
  | EvRemote (c : remoteCall)
  | EvSendAsync (p : IPayload)
  | EvHandleRequest (s : stageName)
  | EvNext (s : stageName)
  | EvEnd (s : stageName) (e r : jsval)
  | EvOnLoginCallback (cb : nat) (walletAddress : string) (email : option string)
  | EvSetHeight (widgetFrame : string) (height : Z).

Abbreviation trace := (list event).

(** ** The session object *)

Record promise (A : Type) := {
  promise_id : nat;
  promise_outcome : settle A
}.
Arguments promise_id {A} _.
Arguments promise_outcome {A} _.

Record WidgetSession := {
  communication : IConnectionMethods;
  iframe : string;
  widgetFrame : string
}.

(** The stages handed to [engine.addProvider]. *)
Inductive subprovider :=
  | FixtureSubprovider (staticResponses : gmap string jsval)
  | CacheSubprovider
  | SubscriptionsSubprovider
  | FilterSubprovider
  | NonceSubprovider
  | HookedWalletSubprovider
  | RelaySubprovider.

Record ProviderEngine := {
  _providers : list subprovider;
  _running : bool
}.

Record Portis := {
  config : ISDKConfig;
  widget : promise WidgetSession;
  provider : ProviderEngine;
  selectedAddress : jsval;
  _widgetUrl : string;
  _onLoginCallback : option nat
}.

Definition PORTIS_SDK_VERSION : string := "$$PORTIS_SDK_VERSION$$".
Definition widgetUrl : string := "https://widget.portis.io".

Definition set_config (c : ISDKConfig) (w : Portis) : Portis :=
  {| config := c; widget := widget w; provider := provider w;
     selectedAddress := selectedAddress w; _widgetUrl := _widgetUrl w;
     _onLoginCallback := _onLoginCallback w |}.

Definition set_selectedAddress (a : jsval) (w : Portis) : Portis :=
  {| config := config w; widget := widget w; provider := provider w;
     selectedAddress := a; _widgetUrl := _widgetUrl w;
     _onLoginCallback := _onLoginCallback w |}.

Definition set_onLoginCallback (cb : option nat) (w : Portis) : Portis :=
  {| config := config w; widget := widget w; provider := provider w;
     selectedAddress := selectedAddress w; _widgetUrl := _widgetUrl w;
     _onLoginCallback := cb |}.

(** ** Construction-time validation *)

Definition err_dappId : string :=
  "[Portis] 'dappId' is required. Get your dappId here: https://dashboard.portis.io".
Definition err_network : string :=
  "[Portis] 'network' is required. Read more about it here: https://docs.portis.io/#/configuration?id=network".
Definition err_scope_array : string :=
  "[Portis] 'scope' must be an array. Read more about it here: https://docs.portis.io/#/configuration?id=scope".
Definition err_scope_invalid : string :=
  "[Portis] invalid 'scope' parameter. Read more about it here: https://docs.portis.io/#/configuration?id=scope".

(** [_valiadateParams]: [Some msg] is [throw new Error(msg)], [None] a normal
    return. *)
Definition _valiadateParams (dappId network : jsval) (options : IOptions)
  : option string :=
  if negb (truthy dappId) then Some err_dappId
  else if negb (truthy network) then Some err_network
  else if truthy (options_scope options) then
    match options_scope options with
    | JArr items =>
        let unknownScope := filter (λ item, indexOf ["email"] item <? 0) items in
        if 0 <? Z.of_nat (length unknownScope) then Some err_scope_invalid
        else None
    | _ => Some err_scope_array
    end
  else None.

(** ** Asynchronous code over the session

    A computation reads and updates the session object, logs the effects it
    performs, and either completes with a value, throws, or stays suspended
    on a promise that never settles. *)

Inductive step (A : Type) : Type :=
  | Done (a : A)
  | Thrown
  | Suspended.
Arguments Done {A} a.
Arguments Thrown {A}.
Arguments Suspended {A}.

Definition M (A : Type) : Type := Portis → step A * Portis * trace.

Global Instance M_ret : MRet M := λ A a w, (Done a, w, []).

Global Instance M_bind : MBind M := λ A B k m w,
  match m w with
  | (Done a, w1, t1) => let '(r, w2, t2) := k a w1 in (r, w2, t1 ++ t2)
  | (Thrown, w1, t1) => (Thrown, w1, t1)
  | (Suspended, w1, t1) => (Suspended, w1, t1)
  end.

Definition this : M Portis := λ w, (Done w, w, []).
Definition modify (f : Portis → Portis) : M unit := λ w, (Done (), f w, []).
Definition emit (e : event) : M unit := λ w, (Done (), w, [e]).

(** [await p] on a promise with the given eventual outcome. *)
Definition settled {A} (o : settle A) : M A := λ w,
  (match o with
   | Fulfilled a => Done a
   | Rejected => Thrown
   | Pending => Suspended
   end, w, []).

(** [(await this.widget).communication] *)
Definition widgetCommunication : M IConnectionMethods :=
  w ← this;
  emit (EvAwait (promise_id (widget w)));;
  session ← settled (promise_outcome (widget w));
  mret (communication session).

(** [v[0]] for a value [v] that is neither [null] nor [undefined]. *)
Definition index0 (v : jsval) : jsval :=
  match v with
  | JArr (x :: _) => x
  | JStr (String c _) => JStr (String c "")
  | JObj props => default JUndefined (props !! "0")
  | _ => JUndefined
  end.

Definition showPortis : M unit :=
  comm ← widgetCommunication;
  w ← this;
  emit (EvRemote (RShowPortis (config w)));;
  settled (remote_showPortis comm (config w)).

Definition login : M unit :=
  comm ← widgetCommunication;
  w ← this;
  emit (EvRemote (RLogin (config w)));;
  settled (remote_login comm (config w)).

Definition onLogin (callback : nat) : M unit :=
  modify (set_onLoginCallback (Some callback)).

Definition setDefaultEmail (email : string) : M unit :=
  modify (λ w, set_config
    {| dappId := dappId (config w); network := network (config w);
       version := version (config w); defaultEmail := Some email;
       scope := scope (config w) |} w).

(** *** The hooks passed to [HookedWalletSubprovider]

    Each hook returns the pair it hands to its callback [cb]. *)
Module Hooks.

Definition getAccounts : M reply :=
  comm ← widgetCommunication;
  w ← this;
  emit (EvRemote (RGetAccounts (config w)));;
  r ← settled (remote_getAccounts comm (config w));
  (if negb (truthy (error r)) && truthy (result r)
   then modify (set_selectedAddress (index0 (result r)))
   else mret ());;
  mret r.

Definition signTransaction (txParams : object) : M reply :=
  comm ← widgetCommunication;
  w ← this;
  emit (EvRemote (RSignTransaction txParams (config w)));;
  r ← settled (remote_signTransaction comm txParams (config w));
  mret r.

Definition signMessage (msgParams : object) : M reply :=
  comm ← widgetCommunication;
  let params :=
    Object_assign ∅ [msgParams; {[ "messageStandard" := JStr "signMessage" ]}] in
  w ← this;
  emit (EvRemote (RSignMessage params (config w)));;
  r ← settled (remote_signMessage comm params (config w));
  mret r.

Definition signPersonalMessage (msgParams : object) : M reply :=
  comm ← widgetCommunication;
  let params :=
    Object_assign ∅
      [msgParams; {[ "messageStandard" := JStr "signPersonalMessage" ]}] in
  w ← this;
  emit (EvRemote (RSignMessage params (config w)));;
  r ← settled (remote_signMessage comm params (config w));
  mret r.

Definition signTypedMessage (msgParams : object) : M reply :=
  comm ← widgetCommunication;
  let params :=
    Object_assign ∅
      [msgParams; {[ "messageStandard" := JStr "signTypedMessage" ]}] in
  w ← this;
  emit (EvRemote (RSignMessage params (config w)));;
  r ← settled (remote_signMessage comm params (config w));
  mret r.

Definition gasPrice : M reply :=
  mret {| error := JNull; result := JObj {[ "result" := JStr "" ]} |}.

End Hooks.

(** ** Collaborators outside [index.ts] *)

(** What a stage does with a request: [next()] or [end(error, result)]. *)
Inductive action :=
  | Next
  | End (e r : jsval).

Inductive hookCall :=
  | HGetAccounts
  | HSignTransaction (txParams : object)
  | HSignMessage (msgParams : object)
  | HSignPersonalMessage (msgParams : object)
  | HSignTypedMessage (msgParams : object)
  | HEstimateGas (txParams : object)
  | HGasPrice.

(** The hooked-wallet stage is library code that holds the hooks as
    callbacks: it may call any of them, any number of times, each call
    continuing with what the hook passed to [cb], and finally calls [next]
    or [end]. *)
Inductive walletProgram :=
  | WDone (a : action)
  | WCall (h : hookCall) (k : jsval → jsval → walletProgram).

(** What [networkAdapter] does with the network it is given: it returns
    the adapted network, or throws for a network it does not accept. *)
Inductive adapted :=
  | Adapted (adapted_network : INetwork)
  | AdapterThrew (message : string).

(** The parts of the program this file imports: [networkAdapter] from
    [./networks], [getTxGas] from [./utils/getTxGas] (by the eventual outcome
    of the promise it returns; the requests it sends through its [query]
    are requests of their own and are not followed inside the hook that
    awaits it), the request handlers of the four
    subproviders of [web3-provider-engine] that are constructed without
    hooks (their state is their own), and the way the hooked-wallet
    subprovider drives the hooks it is given. *)
Record Library := {
  networkAdapter : jsval → adapted;
  getTxGas : object → settle jsval;
  cacheStage : IPayload → action;
  subscriptionsStage : IPayload → action;
  filterStage : IPayload → action;
  nonceStage : IPayload → action;
  hookedWalletStage : IPayload → walletProgram
}.

Inductive RpcBody :=
  | RResult (r : jsval)
  | RError (e : jsval).

Record RpcResponse := {
  resp_id : jsval;
  resp_jsonrpc : jsval;
  resp_body : RpcBody
}.

Inductive outcome :=
  | Ended (e r : jsval)
  | NoHandler.

Inductive sendResult :=
  | Returned (r : RpcResponse)
  | Threw (message : string)
  | CalledBack (e : jsval) (r : RpcResponse)
  | NotCalledBack.

Definition stage_name (s : subprovider) : stageName :=
  match s with
  | FixtureSubprovider _ => Fixture
  | CacheSubprovider => Cache
  | SubscriptionsSubprovider => Subscriptions
  | FilterSubprovider => Filter
  | NonceSubprovider => Nonce
  | HookedWalletSubprovider => HookedWallet
  | RelaySubprovider => Relay
  end.

Definition new_ProviderEngine : ProviderEngine :=
  {| _providers := []; _running := false |}.

Definition addProvider (s : subprovider) (engine : ProviderEngine) : ProviderEngine :=
  {| _providers := _providers engine ++ [s]; _running := _running engine |}.

Definition start (engine : ProviderEngine) : ProviderEngine :=
  {| _providers := _providers engine; _running := true |}.

Definition throw {A} : M A := λ w, (Thrown, w, []).

Definition sync_methods : list string :=
  ["eth_accounts"; "eth_coinbase"; "eth_uninstallFilter"].

Definition unsupported_sync_message (method : string) : string :=
  "The Portis Web3 object does not support synchronous methods like "
  +:+ method +:+ " without a callback parameter.".

(** The document and the widget as they are when the session is built. *)
Record Env := {
  readyState : string;
  now : Z;
  load_fires : bool;
  connection : settle IConnectionMethods;
  fresh_promise : nat
}.

(** What [_getWindowSize] reads from the window and the document. *)
Record WindowMetrics := {
  innerWidth : Z;
  innerHeight : Z;
  documentClientWidth : Z;
  documentClientHeight : Z;
  bodyClientWidth : Z;
  bodyClientHeight : Z
}.

Inductive constructResult :=
  | ConstructThrew (message : string)
  | Constructed (w : Portis) (onload : trace).

Section Model.

Variable lib : Library.

(** [changeNetwork]: [networkAdapter] runs first, so when it throws the
    config is not assigned. *)
Definition changeNetwork (network : jsval) : M unit :=
  match networkAdapter lib network with
  | Adapted adapted_network =>
      modify (λ w, set_config
        {| dappId := dappId (config w); network := adapted_network;
           version := version (config w); defaultEmail := defaultEmail (config w);
           scope := scope (config w) |} w)
  | AdapterThrew _ => throw
  end.

Definition estimateGas (txParams : object) : M reply :=
  gas ← settled (getTxGas lib txParams);
  mret {| error := JNull; result := gas |}.

Definition run_hook (h : hookCall) : M reply :=
  match h with
  | HGetAccounts => Hooks.getAccounts
  | HSignTransaction txParams => Hooks.signTransaction txParams
  | HSignMessage msgParams => Hooks.signMessage msgParams
  | HSignPersonalMessage msgParams => Hooks.signPersonalMessage msgParams
  | HSignTypedMessage msgParams => Hooks.signTypedMessage msgParams
  | HEstimateGas txParams => estimateGas txParams
  | HGasPrice => Hooks.gasPrice
  end.

Fixpoint run_wallet (prog : walletProgram) : M action :=
  match prog with
  | WDone a => mret a
  | WCall h k => r ← run_hook h; run_wallet (k (error r) (result r))
  end.

(** The relay stage: the object literal given to the last [addProvider]. *)
Definition relay_handleRequest (payload : IPayload) : M action :=
  comm ← widgetCommunication;
  w ← this;
  emit (EvRemote (RRelay payload (config w)));;
  r ← settled (remote_relay comm payload (config w));
  mret (End (error r) (result r)).

(** Modelled from the spec: the request handler of the library's fixture
    subprovider, which is not part of this repository.  It answers the
    methods of its table with the table's value and passes every other
    method on. *)
Definition fixture_handleRequest (staticResponses : gmap string jsval)
    (payload : IPayload) : M action :=
  mret (match staticResponses !! payload_method payload with
        | Some v => End JNull v
        | None => Next
        end).

Definition handleRequest (s : subprovider) (payload : IPayload) : M action :=
  match s with
  | FixtureSubprovider staticResponses => fixture_handleRequest staticResponses payload
  | CacheSubprovider => mret (cacheStage lib payload)
  | SubscriptionsSubprovider => mret (subscriptionsStage lib payload)
  | FilterSubprovider => mret (filterStage lib payload)
  | NonceSubprovider => mret (nonceStage lib payload)
  | HookedWalletSubprovider => run_wallet (hookedWalletStage lib payload)
  | RelaySubprovider => relay_handleRequest payload
  end.

(** Modelled from the spec: the dispatch loop of the library's
    [ProviderEngine], which is not part of this repository.  Stages are
    invoked in registration order; a stage that calls [end] terminates the
    chain, one that calls [next] hands the request to the following stage,
    and a request that runs off the end of the chain has no handler.  The
    log records each stage being handed the request and its call of
    [next] or [end]. *)
Fixpoint walk (stack : list subprovider) (payload : IPayload) : M outcome :=
  match stack with
  | [] => mret NoHandler
  | s :: rest =>
      emit (EvHandleRequest (stage_name s));;
      a ← handleRequest s payload;
      match a with
      | Next => emit (EvNext (stage_name s));; walk rest payload
      | End e r => emit (EvEnd (stage_name s) e r);; mret (Ended e r)
      end
  end.

Definition no_handler_error (method : string) : jsval :=
  JStr ("Request for method " +:+ method +:+ " not handled by any subprovider").

(** Modelled from the spec: [engine.sendAsync] of the library.  The
    request is admitted to the pipeline and the callback receives the
    error and a response tagged with the id and jsonrpc of the request,
    holding the error when there is one and the result otherwise. *)
Definition sendAsync (payload : IPayload) : M (jsval * RpcResponse) :=
  emit (EvSendAsync payload);;
  w ← this;
  o ← walk (_providers (provider w)) payload;
  let '(e, r) := match o with
                 | Ended e r => (e, r)
                 | NoHandler => (no_handler_error (payload_method payload), JUndefined)
                 end in
  mret (e, {| resp_id := payload_id payload;
              resp_jsonrpc := payload_jsonrpc payload;
              resp_body := if truthy e then RError e else RResult r |}).

(** [engine.send(payload, callback)]; [callback] tells whether a callback
    was supplied. *)
Definition send (payload : IPayload) (callback : bool)
  : Portis → sendResult * Portis * trace := λ w,
  if callback then
    match sendAsync payload w with
    | (Done (e, r), w', t) => (CalledBack e r, w', t)
    | (_, w', t) => (NotCalledBack, w', t)
    end
  else
    let respond (result : jsval) :=
      Returned {| resp_id := payload_id payload;
                  resp_jsonrpc := payload_jsonrpc payload;
                  resp_body := RResult result |} in
    if String.eqb (payload_method payload) "eth_accounts" then
      (respond (if truthy (selectedAddress w)
                then JArr [selectedAddress w] else JArr []), w, [])
    else if String.eqb (payload_method payload) "eth_coinbase" then
      (respond (if truthy (selectedAddress w)
                then JArr [selectedAddress w] else JArr []), w, [])
    else if String.eqb (payload_method payload) "eth_uninstallFilter" then
      let '(_, w', t) := sendAsync payload w in
      (respond (JBool true), w', t)
    else
      (Threw (unsupported_sync_message (payload_method payload)), w, []).

(** [engine.enable()]: the promise fulfils with [response.result] and
    rejects with the error. *)
Definition response_result (r : RpcResponse) : jsval :=
  match resp_body r with RResult v => v | RError _ => JUndefined end.

Definition enable : M jsval :=
  '(e, response) ← sendAsync {| payload_id := JUndefined; payload_jsonrpc := JUndefined;
                                payload_method := "eth_accounts"; payload_params := [] |};
  if truthy e then throw else mret (response_result response).

End Model.

(** ** Building the session *)

Definition fixture_table (version : string) : gmap string jsval :=
  <[ "web3_clientVersion" := JStr ("Portis/v" +:+ version +:+ "/javascript") ]>
  (<[ "net_listening" := JBool true ]>
  (<[ "eth_hashrate" := JStr "0x00" ]>
  (<[ "eth_mining" := JBool false ]>
  (<[ "eth_syncing" := JBool true ]> ∅)))).

(** [_initProvider]: the seven [addProvider] calls, then [engine.start()]. *)
Definition _initProvider (cfg : ISDKConfig) : ProviderEngine :=
  let engine := new_ProviderEngine in
  let engine := addProvider (FixtureSubprovider (fixture_table (version cfg))) engine in
  let engine := addProvider CacheSubprovider engine in
  let engine := addProvider SubscriptionsSubprovider engine in
  let engine := addProvider FilterSubprovider engine in
  let engine := addProvider NonceSubprovider engine in
  let engine := addProvider HookedWalletSubprovider engine in
  let engine := addProvider RelaySubprovider engine in
  start engine.

Definition ready_states : list string := ["loaded"; "interactive"; "complete"].

(** The effects of [onload] up to its [await connection.promise]. *)
Definition onload_effects (url : string) (now : Z) : trace :=
  let frame_id := "portis-container-" +:+ pretty now in
  [ EvCreateElement "style"; EvCreateElement "div"; EvCreateElement "div";
    EvAppendChild "por_portis-container" frame_id;
    EvAppendChild "body" "por_portis-container";
    EvAppendChild "head" "style";
    EvConnectToChild url frame_id ["setHeight"; "getWindowSize"; "onLogin"] ].

(** What [onload] resolves the widget promise with; it never rejects it. *)
Definition onload_outcome (url : string) (now : Z)
    (connection : settle IConnectionMethods) : settle WidgetSession :=
  match connection with
  | Fulfilled comm =>
      Fulfilled {| communication := comm; iframe := url;
                   widgetFrame := "portis-container-" +:+ pretty now |}
  | _ => Pending
  end.

(** [_initWidget]: the promise, the effects performed at once, and the
    effects performed when the window's load event arrives. *)
Definition _initWidget (env : Env) (url : string)
  : promise WidgetSession * trace * trace :=
  if -1 <? indexOf ready_states (JStr (readyState env)) then
    ({| promise_id := fresh_promise env;
        promise_outcome := onload_outcome url (now env) (connection env) |},
     onload_effects url (now env), [])
  else
    ({| promise_id := fresh_promise env;
        promise_outcome := if load_fires env
                           then onload_outcome url (now env) (connection env)
                           else Pending |},
     [EvAddEventListener "load"],
     if load_fires env then onload_effects url (now env) else []).

Section Session.

Variable lib : Library.

(** [new Portis(dappId, network, options)]: the outcome and the effects
    performed before the constructor returns or throws.  The arguments are
    validated, then [networkAdapter] is called while the config is built,
    and only then are the widget and the provider created. *)
Definition constructor (env : Env) (dappId network : jsval) (options : IOptions)
  : constructResult * trace :=
  match _valiadateParams dappId network options with
  | Some message => (ConstructThrew message, [])
  | None =>
      match networkAdapter lib network with
      | AdapterThrew message => (ConstructThrew message, [])
      | Adapted adapted_network =>
          let config := {| dappId := dappId; network := adapted_network;
                           version := PORTIS_SDK_VERSION; defaultEmail := None;
                           scope := options_scope options |} in
          let '(widget, t, onload) := _initWidget env widgetUrl in
          let provider := _initProvider config in
          (Constructed {| config := config; widget := widget; provider := provider;
                          selectedAddress := JUndefined; _widgetUrl := widgetUrl;
                          _onLoginCallback := None |} onload, t)
      end
  end.

(** The local methods exposed to the widget. *)
Definition _setHeight (height : Z) : M unit :=
  w ← this;
  emit (EvAwait (promise_id (widget w)));;
  session ← settled (promise_outcome (widget w));
  emit (EvSetHeight (widgetFrame session) height).

Definition _onLogin (walletAddress : string) (email : option string) : M unit :=
  w ← this;
  match _onLoginCallback w with
  | Some cb => emit (EvOnLoginCallback cb walletAddress email)
  | None => mret ()
  end.

(** [_getWindowSize]: the first non-zero of the window's, the document
    element's and the body's metrics, for width and for height. *)
Definition or_else (a b : Z) : Z := if Z.eqb a 0 then b else a.

Definition _getWindowSize (m : WindowMetrics) : M (Z * Z) :=
  let width := or_else (or_else (innerWidth m) (documentClientWidth m)) (bodyClientWidth m) in
  let height := or_else (or_else (innerHeight m) (documentClientHeight m)) (bodyClientHeight m) in
  mret (width, height).

(** Everything a caller, or the widget, can do with a session. *)
Inductive operation :=
  | OpChangeNetwork (network : jsval)
  | OpSetDefaultEmail (email : string)
  | OpShowPortis
  | OpLogin
  | OpOnLogin (callback : nat)
  | OpSend (payload : IPayload) (callback : bool)
  | OpSendAsync (payload : IPayload)
  | OpEnable
  | OpSetHeight (height : Z)
  | OpGetWindowSize (m : WindowMetrics)
  | OpWidgetOnLogin (walletAddress : string) (email : option string).

Definition exec {A} (m : M A) (w : Portis) : Portis * trace :=
  let '(_, w', t) := m w in (w', t).

Definition perform (o : operation) (w : Portis) : Portis * trace :=
  match o with
  | OpChangeNetwork network => exec (changeNetwork lib network) w
  | OpSetDefaultEmail email => exec (setDefaultEmail email) w
  | OpShowPortis => exec showPortis w
  | OpLogin => exec login w
  | OpOnLogin callback => exec (onLogin callback) w
  | OpSend payload callback => let '(_, w', t) := send lib payload callback w in (w', t)
  | OpSendAsync payload => exec (sendAsync lib payload) w
  | OpEnable => exec (enable lib) w
  | OpSetHeight height => exec (_setHeight height) w
  | OpGetWindowSize m => exec (_getWindowSize m) w
  | OpWidgetOnLogin walletAddress email => exec (_onLogin walletAddress email) w
  end.

Fixpoint perform_all (ops : list operation) (w : Portis) : Portis * trace :=
  match ops with
  | [] => (w, [])
  | o :: rest =>
      let '(w1, t1) := perform o w in
      let '(w2, t2) := perform_all rest w1 in
      (w2, t1 ++ t2)
  end.

End Session.

(** ** Sessions reached from the constructor *)

Definition reachable (lib : Library) (w : Portis) : Prop :=
  ∃ env dappId network options w0 onload t ops,
    constructor lib env dappId network options = (Constructed w0 onload, t)
    ∧ (perform_all lib ops w0).1 = w.

(** ** Instrumentation *)

(** The stages that saw a request, in order. *)
Definition observed (t : trace) : list stageName :=
  omap (λ e, match e with EvHandleRequest s => Some s | _ => None end) t.

(** The engine's part of the log: stages handed the request, and their
    calls of [next] and [end]. *)
Definition is_dispatch (e : event) : bool :=
  match e with
  | EvHandleRequest _ | EvNext _ | EvEnd _ _ _ => true
  | _ => false
  end.

Definition dispatch (t : trace) : trace := filter is_dispatch t.

(** The log of a request that each stage of [pre] passed on and that
    reached stage [s]. *)
Fixpoint passed_on (pre : list stageName) : trace :=
  match pre with
  | [] => []
  | s :: pre => EvHandleRequest s :: EvNext s :: passed_on pre
  end.

Definition pipeline_order : list stageName :=
  [Fixture; Cache; Subscriptions; Filter; Nonce; HookedWallet; Relay].

(** The introspection methods the fixture stage is built with. *)
Definition fixture_methods : list string :=
  ["web3_clientVersion"; "net_listening"; "eth_hashrate"; "eth_mining"; "eth_syncing"].

(** The six stages registered before the relay stage. *)
Definition stages_before_relay : list subprovider :=
  [ FixtureSubprovider (fixture_table PORTIS_SDK_VERSION); CacheSubprovider;
    SubscriptionsSubprovider; FilterSubprovider; NonceSubprovider;
    HookedWalletSubprovider ].

Definition is_handshake (e : event) : bool :=
  match e with EvConnectToChild _ _ _ => true | _ => false end.

Definition handshakes (t : trace) : nat := length (filter is_handshake t).

Definition remote_calls (t : trace) : list remoteCall :=
  omap (λ e, match e with EvRemote c => Some c | _ => None end) t.

(** An effect that neither starts a handshake nor awaits a promise other
    than [pid]. *)
Definition quiet (pid : nat) (e : event) : Prop :=
  match e with
  | EvConnectToChild _ _ _ => False
  | EvAddEventListener _ => False
  | EvAwait p => p = pid
  | _ => True
  end.

(** The first effect of [m] run on [w] is an await of promise [pid]. *)
Definition first_awaits {A} (pid : nat) (m : M A) (w : Portis) : Prop :=
  head (m w).2 = Some (EvAwait pid).

(** Every user of the widget in [w] starts by awaiting promise [pid]. *)
Definition widget_users_await (pid : nat) (w : Portis) : Prop :=
  first_awaits pid showPortis w
  ∧ first_awaits pid login w
  ∧ first_awaits pid Hooks.getAccounts w
  ∧ (∀ txParams, first_awaits pid (Hooks.signTransaction txParams) w)
  ∧ (∀ msgParams,
       first_awaits pid (Hooks.signMessage msgParams) w
       ∧ first_awaits pid (Hooks.signPersonalMessage msgParams) w
       ∧ first_awaits pid (Hooks.signTypedMessage msgParams) w)
  ∧ (∀ payload, first_awaits pid (relay_handleRequest payload) w).

(** With the widget session there, the account hook, the signing hooks and
    the relay stage each place exactly one call on the widget channel. *)
Definition defers_to_widget (w : Portis) : Prop :=
  remote_calls (Hooks.getAccounts w).2 = [RGetAccounts (config w)]
  ∧ (∀ txParams,
       remote_calls (Hooks.signTransaction txParams w).2
       = [RSignTransaction txParams (config w)])
  ∧ (∀ msgParams,
       remote_calls (Hooks.signMessage msgParams w).2
       = [RSignMessage (<[ "messageStandard" := JStr "signMessage" ]> msgParams) (config w)]
       ∧ remote_calls (Hooks.signPersonalMessage msgParams w).2
         = [RSignMessage (<[ "messageStandard" := JStr "signPersonalMessage" ]> msgParams)
              (config w)]
       ∧ remote_calls (Hooks.signTypedMessage msgParams w).2
         = [RSignMessage (<[ "messageStandard" := JStr "signTypedMessage" ]> msgParams)
              (config w)])
  ∧ (∀ payload,
       remote_calls (relay_handleRequest payload w).2 = [RRelay payload (config w)]).

(** The guard of the [getAccounts] hook: [!error && result]. *)
Definition accounts_accepted (r : reply) : bool :=
  negb (truthy (error r)) && truthy (result r).

(** The scope values the specification calls malformed. *)
Definition scope_malformed (v : jsval) : Prop :=
  match v with
  | JArr items => ∃ item, item ∈ items ∧ item ≠ JStr "email"
  | _ => True
  end.

(** ** A concrete session *)

Module Example.

Definition mainnet : INetwork :=
  {| nodeUrl := "https://mainnet.infura.io"; chainId := Some 1;
     nodeProtocol := Some "rpc" |}.

(** An adapter that knows the network ['mainnet'] and no other. *)
Definition adapter (network : jsval) : adapted :=
  match network with
  | JStr name =>
      if String.eqb name "mainnet" then Adapted mainnet
      else AdapterThrew "[Portis] illegal 'network' parameter."
  | _ => AdapterThrew "[Portis] illegal 'network' parameter."
  end.

Definition wallet (payload : IPayload) : walletProgram :=
  if String.eqb (payload_method payload) "eth_accounts"
  then WCall HGetAccounts (λ e r, WDone (End e r))
  else WDone Next.

Definition lib : Library :=
  {| networkAdapter := adapter;
     getTxGas := λ _, Fulfilled (JStr "0x5208");
     cacheStage := λ _, Next;
     subscriptionsStage := λ _, Next;
     filterStage := λ payload,
       if String.eqb (payload_method payload) "eth_uninstallFilter"
       then End JNull (JBool true) else Next;
     nonceStage := λ _, Next;
     hookedWalletStage := wallet |}.

Definition ok (v : jsval) : settle reply :=
  Fulfilled {| error := JNull; result := v |}.

Definition comm : IConnectionMethods :=
  {| remote_getAccounts := λ _, ok (JArr [JStr "0xABC"]);
     remote_signTransaction := λ _ _, ok (JStr "0xsignedtx");
     remote_signMessage := λ _ _, ok (JStr "0xsignature");
     remote_relay := λ _ _, ok (JStr "0x10");
     remote_showPortis := λ _, Fulfilled ();
     remote_login := λ _, Fulfilled () |}.

(** A widget that answers an account query with the empty list. *)
Definition comm_no_accounts : IConnectionMethods :=
  {| remote_getAccounts := λ _, ok (JArr []);
     remote_signTransaction := λ _ _, ok (JStr "0xsignedtx");
     remote_signMessage := λ _ _, ok (JStr "0xsignature");
     remote_relay := λ _ _, ok (JStr "0x10");
     remote_showPortis := λ _, Fulfilled ();
     remote_login := λ _, Fulfilled () |}.

Definition env : Env :=
  {| readyState := "complete"; now := 1500000000000; load_fires := false;
     connection := Fulfilled comm; fresh_promise := 0 |}.

Definition no_options : IOptions := {| options_scope := JUndefined |}.

Definition cfg : ISDKConfig :=
  {| dappId := JStr "my-dapp"; network := mainnet;
     version := PORTIS_SDK_VERSION; defaultEmail := None;
     scope := JUndefined |}.

Definition session_of (c : IConnectionMethods) : WidgetSession :=
  {| communication := c; iframe := widgetUrl;
     widgetFrame := "portis-container-1500000000000" |}.

(** The session [new Portis('my-dapp', 'mainnet')] builds in [env]. *)
Definition portis : Portis :=
  {| config := cfg;
     widget := {| promise_id := 0; promise_outcome := Fulfilled (session_of comm) |};
     provider := _initProvider cfg;
     selectedAddress := JUndefined;
     _widgetUrl := widgetUrl;
     _onLoginCallback := None |}.

(** The same session later on: ['0xABC'] is selected and the widget now
    answers an account query with the empty list. *)
Definition after_logout : Portis :=
  {| config := cfg;
     widget := {| promise_id := 0;
                  promise_outcome := Fulfilled (session_of comm_no_accounts) |};
     provider := _initProvider cfg;
     selectedAddress := JStr "0xABC";
     _widgetUrl := widgetUrl;
     _onLoginCallback := None |}.

Definition request (method : string) : IPayload :=
  {| payload_id := JNum 7; payload_jsonrpc := JStr "2.0";
     payload_method := method; payload_params := [] |}.

Definition message : object :=
  <[ "from" := JStr "0xABC" ]> (<[ "data" := JStr "0xdeadbeef" ]> ∅).

End Example.

(** ** Further instrumentation *)

(** The config a remote call transmits. *)
Definition config_of (c : remoteCall) : ISDKConfig :=
  match c with
  | RGetAccounts cfg | RSignTransaction _ cfg | RSignMessage _ cfg
  | RRelay _ cfg | RShowPortis cfg | RLogin cfg => cfg
  end.

(** [w'] is [w] except, perhaps, for the selected address. *)
Definition same_but_address (w w' : Portis) : Prop :=
  w' = set_selectedAddress (selectedAddress w') w.

(** A remote call made from session [w] transmits the config of [w] and is
    made on a widget session that is there. *)
Definition call_in_order (w : Portis) (e : event) : Prop :=
  match e with
  | EvRemote c =>
      config_of c = config w
      ∧ ∃ session, promise_outcome (widget w) = Fulfilled session
  | _ => True
  end.

(** The callback [_onLogin] finds after the operations [ops], given the one
    registered before them. *)
Fixpoint registered (ops : list operation) (before : option nat) : option nat :=
  match ops with
  | [] => before
  | OpOnLogin callback :: rest => registered rest (Some callback)
  | _ :: rest => registered rest before
  end.

(** The request [engine.enable()] sends. *)
Definition accounts_request : IPayload :=
  {| payload_id := JUndefined; payload_jsonrpc := JUndefined;
     payload_method := "eth_accounts"; payload_params := [] |}.

(** The way the library's hooked-wallet stage answers [eth_accounts]: it
    calls the [getAccounts] hook and ends the request with what the hook
    passed to its callback. *)
Definition accounts_program : walletProgram :=
  WCall HGetAccounts (λ e r, WDone (End e r)).

(** A widget that could not be reached. *)
Module Offline.

Definition env : Env :=
  {| readyState := "loading"; now := 1500000000000; load_fires := true;
     connection := Rejected; fresh_promise := 0 |}.

Definition portis : Portis :=
  {| config := Example.cfg;
     widget := {| promise_id := 0; promise_outcome := Pending |};
     provider := _initProvider Example.cfg;
     selectedAddress := JUndefined;
     _widgetUrl := widgetUrl;
     _onLoginCallback := None |}.

Definition transaction : object :=
  <[ "from" := JStr "0xABC" ]> (<[ "to" := JStr "0xDEF" ]> ∅).

Definition metrics : WindowMetrics :=
  {| innerWidth := 0; innerHeight := 768;
     documentClientWidth := 0; documentClientHeight := 700;
     bodyClientWidth := 1024; bodyClientHeight := 600 |}.

End Offline.

(** A widget whose [relay] call fails. *)
Module RelayDown.

Definition comm : IConnectionMethods :=
  {| remote_getAccounts := λ _, Example.ok (JArr [JStr "0xABC"]);
     remote_signTransaction := λ _ _, Example.ok (JStr "0xsignedtx");
     remote_signMessage := λ _ _, Example.ok (JStr "0xsignature");
     remote_relay := λ _ _, Rejected;
     remote_showPortis := λ _, Fulfilled ();
     remote_login := λ _, Fulfilled () |}.

Definition env : Env :=
  {| readyState := "complete"; now := 1500000000000; load_fires := false;
     connection := Fulfilled comm; fresh_promise := 0 |}.

Definition portis : Portis :=
  {| config := Example.cfg;
     widget := {| promise_id := 0;
                  promise_outcome := Fulfilled (Example.session_of comm) |};
     provider := _initProvider Example.cfg;
     selectedAddress := JUndefined;
     _widgetUrl := widgetUrl;
     _onLoginCallback := None |}.

End RelayDown.

Lemma example_constructed :
  constructor Example.lib Example.env (JStr "my-dapp") (JStr "mainnet") Example.no_options
  = (Constructed Example.portis [], onload_effects widgetUrl 1500000000000).
Proof. reflexivity. Qed.

Lemma example_reachable : reachable Example.lib Example.portis.
Proof.
  exists Example.env, (JStr "my-dapp"), (JStr "mainnet"), Example.no_options,
    Example.portis, [], (onload_effects widgetUrl 1500000000000), [].
  split; reflexivity.
Defined.

(** * Properties *)

Local Arguments String.eqb : simpl never.
Local Arguments String.append : simpl never.

(** ** Validation of the constructor's arguments *)

Lemma unknown_scope_item (item : jsval) :
  Is_true (indexOf ["email"] item <? 0) ↔ item ≠ JStr "email".
Proof.
  unfold indexOf; simpl.
  destruct (strict_eq_str "email" item) eqn:E; simpl.
  - destruct item; simpl in E; try discriminate.
    apply String.eqb_eq in E; subst. split; [intros [] | congruence].
  - split; [| intros _; exact I].
    intros _ ->. simpl in E. discriminate.
Qed.

Lemma scope_items_rejected (items : list jsval) :
  (0 <? Z.of_nat (length (filter (λ item, indexOf ["email"] item <? 0) items))) = true
  ↔ ∃ item, item ∈ items ∧ item ≠ JStr "email".
Proof.
  destruct (filter _ items) as [| x rest] eqn:E; simpl.
  - split; [discriminate |].
    intros (item & Hin & Hne).
    exfalso. apply (filter_nil_not_elem_of _ _ item E); [| done].
    by apply unknown_scope_item.
  - split; [intros _ | intros _; apply Z.ltb_lt; lia].
    assert (Hx : x ∈ filter (λ item, indexOf ["email"] item <? 0) items)
      by (rewrite E; left).
    apply list_elem_of_filter in Hx as [HP Hin].
    exists x. split; [done |]. by apply unknown_scope_item.
Qed.

Lemma validate_throws_iff (d n : jsval) (o : IOptions) :
  is_Some (_valiadateParams d n o)
  ↔ truthy d = false ∨ truthy n = false
    ∨ (truthy (options_scope o) = true ∧ scope_malformed (options_scope o)).
Proof.
  unfold _valiadateParams.
  destruct (truthy d); simpl; [| split; eauto].
  destruct (truthy n); simpl; [| split; eauto].
  destruct (options_scope o) as [| | b | z | s | items | props] eqn:Es; simpl;
    try (split; [intros [? [=]] | intros [[=] | [[=] | [[=] _]]]]; fail).
  - destruct b; simpl; [split; eauto |].
    split; [intros [? [=]] | intros [[=] | [[=] | [[=] _]]]].
  - destruct (Z.eqb z 0); simpl; [| split; eauto].
    split; [intros [? [=]] | intros [[=] | [[=] | [[=] _]]]].
  - destruct (String.eqb s ""); simpl; [| split; eauto].
    split; [intros [? [=]] | intros [[=] | [[=] | [[=] _]]]].
  - pose proof (scope_items_rejected items) as H.
    destruct (0 <? _) eqn:E.
    + split; [intros _ | eauto]. right; right. split; [done |]. by apply H.
    + split; [intros [? [=]] |].
      intros [[=] | [[=] | [_ Hm]]]. apply H in Hm. discriminate.
  - split; eauto.
Qed.

Lemma constructor_throws_cases
    (lib : Library) (env : Env) (d n : jsval) (o : IOptions) :
  (∃ message, constructor lib env d n o = (ConstructThrew message, []))
  ↔ is_Some (_valiadateParams d n o)
    ∨ (∃ message, networkAdapter lib n = AdapterThrew message).
Proof.
  unfold constructor.
  destruct (_valiadateParams d n o) as [msg |] eqn:E.
  - split; eauto.
  - destruct (networkAdapter lib n) as [net | msg].
    + destruct (_initWidget env widgetUrl) as [[pw t] later].
      split; [intros [? [=]] | intros [[? [=]] | [? [=]]]].
    + split; eauto.
Qed.

Lemma constructor_throws_validation_error
    (lib : Library) (env : Env) (d n : jsval) (o : IOptions) :
  (∃ message, _valiadateParams d n o = Some message
              ∧ constructor lib env d n o = (ConstructThrew message, []))
  ↔ is_Some (_valiadateParams d n o).
Proof.
  unfold constructor.
  destruct (_valiadateParams d n o) as [msg |] eqn:E.
  - split; eauto.
  - split; [intros (? & [=] & _) | intros [? [=]]].
Qed.

(** C7 as the specification words it: construction throws exactly when the
    identity is missing, the network is missing, or a scope option was given
    and is not an array or holds a value other than ['email']. *)
Definition throws_exactly_when_missing_or_malformed : Prop :=
  ∀ (lib : Library) (env : Env) (d n : jsval) (o : IOptions),
    (∃ message, constructor lib env d n o = (ConstructThrew message, []))
    ↔ truthy d = false ∨ truthy n = false
      ∨ (options_scope o ≠ JUndefined ∧ scope_malformed (options_scope o)).

(** C7, counterexample: [new Portis('my-dapp', 'mainnet', { scope: false })]
    is given a scope that is not an array and still builds the session,
    because a falsy scope is never validated. *)
Lemma constructor_accepts_falsy_scope :
  ¬ throws_exactly_when_missing_or_malformed.
Proof.
  intros H.
  destruct (H Example.lib Example.env (JStr "my-dapp") (JStr "mainnet")
              {| options_scope := JBool false |}) as [_ Hthrow].
  destruct Hthrow as [message Hm].
  - right; right. split; [discriminate | exact I].
  - vm_compute in Hm. discriminate.
Qed.

(** C7, amended: construction either builds the session or throws having
    performed no effect at all.  It throws exactly when [dappId] is falsy,
    [network] is falsy, [scope] is truthy and is not an array or is an array
    holding a value other than ['email'], or [networkAdapter] throws for the
    network; and it throws the error of its own validation exactly in the
    first three cases. *)
Theorem constructor_throws_iff
    (lib : Library) (env : Env) (d n : jsval) (o : IOptions) :
  ((∃ w onload t, constructor lib env d n o = (Constructed w onload, t))
   ∨ (∃ message, constructor lib env d n o = (ConstructThrew message, [])))
  ∧ ((∃ message, constructor lib env d n o = (ConstructThrew message, []))
     ↔ truthy d = false ∨ truthy n = false
       ∨ (truthy (options_scope o) = true ∧ scope_malformed (options_scope o))
       ∨ (∃ message, networkAdapter lib n = AdapterThrew message))
  ∧ ((∃ message, _valiadateParams d n o = Some message
                 ∧ constructor lib env d n o = (ConstructThrew message, []))
     ↔ truthy d = false ∨ truthy n = false
       ∨ (truthy (options_scope o) = true ∧ scope_malformed (options_scope o))).
Proof.
  split; [| split].
  - unfold constructor.
    destruct (_valiadateParams d n o); [right; eauto |].
    destruct (networkAdapter lib n); [| right; eauto].
    destruct (_initWidget env widgetUrl) as [[pw t] later]. left; eauto.
  - rewrite constructor_throws_cases, validate_throws_iff. tauto.
  - rewrite constructor_throws_validation_error. apply validate_throws_iff.
Qed.

(** C7, the two scopes of the specification: ['unknownValue'] throws the
    scope-validation error and ['email'] builds the session; a network the
    adapter does not know makes the constructor throw as well. *)
Lemma constructor_scope_examples :
  (∃ message,
     _valiadateParams (JStr "my-dapp") (JStr "mainnet")
       {| options_scope := JArr [JStr "unknownValue"] |} = Some message
     ∧ constructor Example.lib Example.env (JStr "my-dapp") (JStr "mainnet")
         {| options_scope := JArr [JStr "unknownValue"] |} = (ConstructThrew message, []))
  ∧ ¬ (∃ message,
     constructor Example.lib Example.env (JStr "my-dapp") (JStr "mainnet")
       {| options_scope := JArr [JStr "email"] |} = (ConstructThrew message, []))
  ∧ (∃ message,
     constructor Example.lib Example.env (JStr "my-dapp") (JStr "nonexistent")
       Example.no_options = (ConstructThrew message, [])).
Proof.
  split; [| split].
  - apply (constructor_throws_iff Example.lib Example.env).
    right; right. split; [reflexivity |].
    exists (JStr "unknownValue"). split; [left | discriminate].
  - intros H. apply (constructor_throws_iff Example.lib Example.env) in H.
    destruct H as [H | [H | [[_ (item & Hin & Hne)] | [message H]]]];
      try discriminate.
    apply list_elem_of_singleton in Hin. contradiction.
  - apply (constructor_throws_iff Example.lib Example.env).
    do 3 right. by eexists.
Defined.

(** C10: a scope that is an array of ['email'] entries only, the empty array
    and arrays with repeated entries included, raises neither scope error;
    with a [dappId] and a [network] the session is built, unless
    [networkAdapter] throws for the network, and then the error is its. *)
Theorem scope_all_email_accepted
    (lib : Library) (env : Env) (d n : jsval) (items : list jsval) :
  Forall (λ item, item = JStr "email") items →
  _valiadateParams d n {| options_scope := JArr items |} ≠ Some err_scope_array
  ∧ _valiadateParams d n {| options_scope := JArr items |} ≠ Some err_scope_invalid
  ∧ (truthy d = true → truthy n = true →
     match networkAdapter lib n with
     | Adapted _ =>
         ∃ w onload t,
           constructor lib env d n {| options_scope := JArr items |}
           = (Constructed w onload, t)
     | AdapterThrew message =>
         constructor lib env d n {| options_scope := JArr items |}
         = (ConstructThrew message, [])
     end).
Proof.
  intros Hall.
  assert (Hok : (0 <? Z.of_nat (length
            (filter (λ item, indexOf ["email"] item <? 0) items))) = false).
  { destruct (0 <? _) eqn:E; [| done].
    apply scope_items_rejected in E as (item & Hin & Hne).
    rewrite Forall_forall in Hall. by apply Hall in Hin. }
  unfold constructor, _valiadateParams; simpl. rewrite Hok.
  destruct (truthy d), (truthy n); simpl; repeat split; try discriminate;
    intros; try discriminate.
  destruct (networkAdapter lib n); [| done].
  destruct (_initWidget env widgetUrl) as [[pw t] later]. eauto.
Qed.

Lemma scope_all_email_accepted_witness :
  (∃ w onload t,
     constructor Example.lib Example.env (JStr "my-dapp") (JStr "mainnet")
       {| options_scope := JArr [] |} = (Constructed w onload, t))
  ∧ (∃ w onload t,
     constructor Example.lib Example.env (JStr "my-dapp") (JStr "mainnet")
       {| options_scope := JArr [JStr "email"; JStr "email"] |} = (Constructed w onload, t)).
Proof.
  split.
  - apply (scope_all_email_accepted Example.lib Example.env
             (JStr "my-dapp") (JStr "mainnet") []); [constructor | |]; reflexivity.
  - apply (scope_all_email_accepted Example.lib Example.env
             (JStr "my-dapp") (JStr "mainnet") [JStr "email"; JStr "email"]);
      [repeat constructor | |]; reflexivity.
Defined.

(** ** The synchronous facade *)

Ltac unfold_M :=
  unfold mbind, M_bind, mret, M_ret, emit, this, modify, settled, throw in *.

Lemma sendAsync_response (lib : Library) (p : IPayload) (w : Portis) :
  match (sendAsync lib p w).1.1 with
  | Done (_, r) => resp_id r = payload_id p ∧ resp_jsonrpc r = payload_jsonrpc p
  | _ => True
  end.
Proof.
  unfold sendAsync. unfold_M. simpl.
  destruct (walk lib _ p w) as [[[o | |] w1] t1]; simpl; [| done | done].
  destruct o; simpl; done.
Qed.

Lemma sendAsync_admits (lib : Library) (p : IPayload) (w : Portis) :
  head (sendAsync lib p w).2 = Some (EvSendAsync p).
Proof.
  unfold sendAsync. unfold_M. simpl.
  destruct (walk lib _ p w) as [[[o | |] w1] t1]; simpl; [| done | done].
  destruct o; simpl; done.
Qed.

(** C3: every response carries the id and the jsonrpc of the request it
    answers: the object [send] returns when it is called without a callback,
    and the response handed to the callback of [send] and of [sendAsync]. *)
Theorem response_id_matches_request
    (lib : Library) (w : Portis) (p : IPayload) (callback : bool) :
  match (send lib p callback w).1.1 with
  | Returned r | CalledBack _ r =>
      resp_id r = payload_id p ∧ resp_jsonrpc r = payload_jsonrpc p
  | Threw _ | NotCalledBack => True
  end
  ∧ match (sendAsync lib p w).1.1 with
    | Done (_, r) => resp_id r = payload_id p ∧ resp_jsonrpc r = payload_jsonrpc p
    | _ => True
    end.
Proof.
  split; [| apply sendAsync_response].
  unfold send. destruct callback.
  - pose proof (sendAsync_response lib p w) as H.
    destruct (sendAsync lib p w) as [[[[e r] | |] w1] t1]; simpl in *; done.
  - repeat (destruct (String.eqb _ _); simpl; [done |]).
    destruct (String.eqb _ _); simpl; [| done].
    destruct (sendAsync lib p w) as [[st w1] t1]; simpl; done.
Qed.

(** C4: without a callback, a method outside the allow-list makes [send]
    throw the unsupported-synchronous-method error at once; the session is
    left as it was and nothing is admitted to the pipeline. *)
Theorem send_sync_unsupported_throws (lib : Library) (w : Portis) (p : IPayload) :
  payload_method p ∉ sync_methods →
  send lib p false w
  = (Threw (unsupported_sync_message (payload_method p)), w, []).
Proof.
  intros Hm. unfold sync_methods in Hm.
  rewrite !not_elem_of_cons in Hm. destruct Hm as (H1 & H2 & H3 & _).
  unfold send.
  apply String.eqb_neq in H1, H2, H3. by rewrite H1, H2, H3.
Qed.

Lemma send_sync_unsupported_throws_witness :
  send Example.lib (Example.request "eth_blockNumber") false Example.portis
  = (Threw "The Portis Web3 object does not support synchronous methods like eth_blockNumber without a callback parameter.",
     Example.portis, []).
Proof.
  apply (send_sync_unsupported_throws Example.lib Example.portis
           (Example.request "eth_blockNumber")).
  unfold sync_methods. rewrite !not_elem_of_cons.
  repeat split; try discriminate. apply not_elem_of_nil.
Defined.

(** C5: called without a callback, [send] answers [eth_accounts] and
    [eth_coinbase] with the one-element list holding the selected address
    when one is set (a non-empty string; [undefined] and [''] count as not
    set) and with the empty list otherwise, changing nothing; it answers
    [eth_uninstallFilter] with [true] after handing the payload to
    [sendAsync], whose outcome it ignores.  A freshly built session has no
    selected address, and a [getAccounts] round trip that resolves without
    error to a list headed by [a] selects [a]. *)
Theorem send_sync_allow_list (lib : Library) (w : Portis) (p : IPayload) :
  let respond v := Returned {| resp_id := payload_id p;
                               resp_jsonrpc := payload_jsonrpc p;
                               resp_body := RResult v |} in
  (payload_method p = "eth_accounts" ∨ payload_method p = "eth_coinbase" →
     (truthy (selectedAddress w) = true →
        send lib p false w = (respond (JArr [selectedAddress w]), w, []))
     ∧ (truthy (selectedAddress w) = false →
        send lib p false w = (respond (JArr []), w, [])))
  ∧ (payload_method p = "eth_uninstallFilter" →
       send lib p false w
       = (respond (JBool true), (sendAsync lib p w).1.2, (sendAsync lib p w).2)
       ∧ head (sendAsync lib p w).2 = Some (EvSendAsync p))
  ∧ (∀ env d n o w0 onload t,
       constructor lib env d n o = (Constructed w0 onload, t) →
       selectedAddress w0 = JUndefined)
  ∧ (∀ session e a rest,
       promise_outcome (widget w) = Fulfilled session →
       remote_getAccounts (communication session) (config w)
       = Fulfilled {| error := e; result := JArr (JStr a :: rest) |} →
       truthy e = false →
       selectedAddress (Hooks.getAccounts w).1.2 = JStr a).
Proof.
  intros respond. repeat split.
  - intros Ht. unfold send.
    destruct H as [-> | ->]; simpl; by rewrite Ht.
  - intros Ht. unfold send.
    destruct H as [-> | ->]; simpl; by rewrite Ht.
  - unfold send. rewrite H. simpl.
    destruct (sendAsync lib p w) as [[st w1] t1]; done.
  - apply sendAsync_admits.
  - intros env d n o w0 onload t. unfold constructor.
    destruct (_valiadateParams d n o); [discriminate |].
    destruct (networkAdapter lib n); [| discriminate].
    destruct (_initWidget env widgetUrl) as [[pw t0] later].
    intros [= <- _ _]. reflexivity.
  - intros session e a rest Hw Hr He.
    unfold Hooks.getAccounts, widgetCommunication. unfold_M. simpl.
    rewrite Hw. simpl. rewrite Hr. simpl. rewrite He. reflexivity.
Qed.

Lemma send_sync_allow_list_witness :
  let respond v := Returned {| resp_id := JNum 7; resp_jsonrpc := JStr "2.0";
                               resp_body := RResult v |} in
  let logged_in := (Hooks.getAccounts Example.portis).1.2 in
  send Example.lib (Example.request "eth_accounts") false Example.portis
  = (respond (JArr []), Example.portis, [])
  ∧ selectedAddress logged_in = JStr "0xABC"
  ∧ send Example.lib (Example.request "eth_accounts") false logged_in
    = (respond (JArr [JStr "0xABC"]), logged_in, [])
  ∧ (send Example.lib (Example.request "eth_uninstallFilter") false Example.portis).1.1
    = respond (JBool true).
Proof.
  intros respond logged_in.
  destruct (send_sync_allow_list Example.lib Example.portis
              (Example.request "eth_accounts")) as (Hacc & _ & _ & Hlogin).
  destruct (send_sync_allow_list Example.lib logged_in
              (Example.request "eth_accounts")) as (Hacc' & _).
  destruct (send_sync_allow_list Example.lib Example.portis
              (Example.request "eth_uninstallFilter")) as (_ & Hfilter & _).
  split; [| split; [| split]].
  - apply (Hacc (or_introl eq_refl)). reflexivity.
  - apply (Hlogin (Example.session_of Example.comm) JNull "0xABC" []); reflexivity.
  - apply (Hacc' (or_introl eq_refl)). reflexivity.
  - destruct (Hfilter eq_refl) as [-> _]. reflexivity.
Defined.

(** ** Message signing *)

Lemma Object_assign_standard (msgParams : object) (standard : string) :
  Object_assign ∅ [msgParams; {[ "messageStandard" := JStr standard ]}]
  = <[ "messageStandard" := JStr standard ]> msgParams.
Proof.
  unfold Object_assign; simpl.
  rewrite (right_id_L ∅ (∪) msgParams).
  symmetry. apply insert_union_singleton_l.
Qed.

(** What a signing hook does once the widget session is there: one await of
    the widget promise, one call of the remote [signMessage] with the given
    parameters and the current config, and the remote reply handed on. *)
Definition signs_with (w : Portis) (session : WidgetSession) (params : object)
  : step reply * Portis * trace :=
  (match remote_signMessage (communication session) params (config w) with
   | Fulfilled r => Done r
   | Rejected => Thrown
   | Pending => Suspended
   end,
   w,
   [EvAwait (promise_id (widget w)); EvRemote (RSignMessage params (config w))]).

(** C8: each of the three message-signing hooks calls the one remote
    [signMessage] endpoint, with the caller's parameters extended by a
    [messageStandard] equal to the hook's own name and with the current
    config, and passes the remote reply to its callback unchanged. *)
Theorem sign_hooks_share_signMessage
    (w : Portis) (session : WidgetSession) (msgParams : object) :
  promise_outcome (widget w) = Fulfilled session →
  Hooks.signMessage msgParams w
  = signs_with w session (<[ "messageStandard" := JStr "signMessage" ]> msgParams)
  ∧ Hooks.signPersonalMessage msgParams w
    = signs_with w session (<[ "messageStandard" := JStr "signPersonalMessage" ]> msgParams)
  ∧ Hooks.signTypedMessage msgParams w
    = signs_with w session (<[ "messageStandard" := JStr "signTypedMessage" ]> msgParams).
Proof.
  intros Hw.
  unfold Hooks.signMessage, Hooks.signPersonalMessage, Hooks.signTypedMessage,
    widgetCommunication, signs_with.
  rewrite !Object_assign_standard.
  unfold_M. simpl. rewrite Hw. simpl.
  repeat split;
    match goal with
    | |- context [remote_signMessage ?c ?m ?g] =>
        destruct (remote_signMessage c m g); reflexivity
    end.
Qed.

Lemma sign_hooks_share_signMessage_witness :
  let signed standard :=
    (Done {| error := JNull; result := JStr "0xsignature" |}, Example.portis,
     [EvAwait 0;
      EvRemote (RSignMessage
        (<[ "messageStandard" := JStr standard ]> Example.message) Example.cfg)]) in
  Hooks.signMessage Example.message Example.portis = signed "signMessage"
  ∧ Hooks.signPersonalMessage Example.message Example.portis = signed "signPersonalMessage"
  ∧ Hooks.signTypedMessage Example.message Example.portis = signed "signTypedMessage".
Proof.
  exact (sign_hooks_share_signMessage Example.portis
           (Example.session_of Example.comm) Example.message eq_refl).
Defined.

(** ** What running code may do to the session *)

(** Between [w] and [w'] the selected address stayed as it was, or a
    [getAccounts] round trip that the hook accepted replaced it by the first
    entry of its result. *)
Definition selects (w w' : Portis) (t : trace) : Prop :=
  selectedAddress w' = selectedAddress w
  ∨ ∃ session r,
      promise_outcome (widget w) = Fulfilled session
      ∧ remote_getAccounts (communication session) (config w) = Fulfilled r
      ∧ accounts_accepted r = true
      ∧ selectedAddress w' = index0 (result r)
      ∧ EvRemote (RGetAccounts (config w)) ∈ t.

Definition session_kept (w w' : Portis) (t : trace) : Prop :=
  widget w' = widget w
  ∧ provider w' = provider w
  ∧ Forall (quiet (promise_id (widget w))) t
  ∧ selects w w' t.

Definition preserves (w w' : Portis) (t : trace) : Prop :=
  config w' = config w ∧ session_kept w w' t.

Definition safe {A} (m : M A) : Prop :=
  ∀ w, preserves w (m w).1.2 (m w).2.

Lemma preserves_refl (w : Portis) : preserves w w [].
Proof. repeat split; [constructor | by left]. Qed.

Lemma preserves_trans (w w1 w2 : Portis) (t1 t2 : trace) :
  preserves w w1 t1 → preserves w1 w2 t2 → preserves w w2 (t1 ++ t2).
Proof.
  intros (Hc1 & Hw1 & Hp1 & Hq1 & Hs1) (Hc2 & Hw2 & Hp2 & Hq2 & Hs2).
  rewrite Hw1 in Hq2.
  split; [congruence |]. split; [congruence |]. split; [congruence |].
  split; [by apply Forall_app |].
  destruct Hs2 as [Hs2 | (session & r & Ho & Hr & Ha & Hsel & Hin)].
  - destruct Hs1 as [Hs1 | (session & r & Ho & Hr & Ha & Hsel & Hin)].
    + left; congruence.
    + right. exists session, r. repeat split; try done; try congruence.
      apply elem_of_app; by left.
  - right. exists session, r. rewrite Hw1, Hc1 in *.
    repeat split; try done. apply elem_of_app; by right.
Qed.

Lemma safe_ret {A} (a : A) : safe (mret a).
Proof. intros w. apply preserves_refl. Qed.

Lemma safe_this : safe this.
Proof. intros w. apply preserves_refl. Qed.

Lemma safe_settled {A} (o : settle A) : safe (settled o).
Proof. intros w. apply preserves_refl. Qed.

Lemma safe_throw {A} : safe (@throw A).
Proof. intros w. apply preserves_refl. Qed.

Lemma safe_emit (e : event) : (∀ pid, quiet pid e) → safe (emit e).
Proof.
  intros He w. unfold emit; simpl.
  repeat split; [repeat constructor; apply He | by left].
Qed.

Lemma safe_bind {A B} (m : M A) (k : A → M B) :
  safe m → (∀ a, safe (k a)) → safe (m ≫= k).
Proof.
  intros Hm Hk w. specialize (Hm w).
  unfold mbind, M_bind.
  destruct (m w) as [[[a | |] w1] t1]; simpl in *; try done.
  specialize (Hk a w1).
  destruct (k a w1) as [[st w2] t2]; simpl in *.
  by eapply preserves_trans.
Qed.

Lemma safe_widgetCommunication : safe widgetCommunication.
Proof.
  intros w. unfold widgetCommunication. unfold_M. simpl.
  destruct (promise_outcome (widget w)); simpl;
    (repeat split; [repeat constructor | by left]).
Qed.

Lemma getAccounts_run (w : Portis) (session : WidgetSession) (r : reply) :
  promise_outcome (widget w) = Fulfilled session →
  remote_getAccounts (communication session) (config w) = Fulfilled r →
  Hooks.getAccounts w
  = (Done r,
     if accounts_accepted r then set_selectedAddress (index0 (result r)) w else w,
     [EvAwait (promise_id (widget w)); EvRemote (RGetAccounts (config w))]).
Proof.
  intros Hw Hr. unfold Hooks.getAccounts, widgetCommunication, accounts_accepted.
  unfold_M. simpl. rewrite Hw. simpl. rewrite Hr. simpl.
  destruct (negb (truthy (error r)) && truthy (result r)); reflexivity.
Qed.

Lemma safe_getAccounts : safe Hooks.getAccounts.
Proof.
  intros w.
  destruct (promise_outcome (widget w)) as [session | |] eqn:Hw.
  - destruct (remote_getAccounts (communication session) (config w))
      as [r | |] eqn:Hr.
    + rewrite (getAccounts_run w session r Hw Hr). simpl.
      destruct (accounts_accepted r) eqn:Ha; simpl.
      * repeat split; [repeat constructor |].
        right. exists session, r. repeat split; try done.
        right; left.
      * repeat split; [repeat constructor | by left].
    + unfold Hooks.getAccounts, widgetCommunication. unfold_M. simpl.
      rewrite Hw. simpl. rewrite Hr. simpl.
      repeat split; [repeat constructor | by left].
    + unfold Hooks.getAccounts, widgetCommunication. unfold_M. simpl.
      rewrite Hw. simpl. rewrite Hr. simpl.
      repeat split; [repeat constructor | by left].
  - unfold Hooks.getAccounts, widgetCommunication. unfold_M. simpl.
    rewrite Hw. simpl. repeat split; [repeat constructor | by left].
  - unfold Hooks.getAccounts, widgetCommunication. unfold_M. simpl.
    rewrite Hw. simpl. repeat split; [repeat constructor | by left].
Qed.

(** A computation that does not write the selected address. *)
Definition keeps_address {A} (m : M A) : Prop :=
  ∀ w, selectedAddress (m w).1.2 = selectedAddress w.

Lemma keeps_ret {A} (a : A) : keeps_address (mret a).
Proof. by intros w. Qed.

Lemma keeps_this : keeps_address this.
Proof. by intros w. Qed.

Lemma keeps_settled {A} (o : settle A) : keeps_address (settled o).
Proof. by intros w. Qed.

Lemma keeps_emit (e : event) : keeps_address (emit e).
Proof. by intros w. Qed.

Lemma keeps_bind {A B} (m : M A) (k : A → M B) :
  keeps_address m → (∀ a, keeps_address (k a)) → keeps_address (m ≫= k).
Proof.
  intros Hm Hk w. specialize (Hm w). unfold mbind, M_bind.
  destruct (m w) as [[[a | |] w1] t1]; simpl in *; try done.
  specialize (Hk a w1). destruct (k a w1) as [[st w2] t2]; simpl in *.
  congruence.
Qed.

Lemma keeps_widgetCommunication : keeps_address widgetCommunication.
Proof.
  repeat (apply keeps_bind; intros); auto using keeps_this, keeps_emit,
    keeps_settled, keeps_ret.
  all: repeat (apply keeps_bind; intros); auto using keeps_this, keeps_emit,
    keeps_settled, keeps_ret.
Qed.

Ltac keeps :=
  repeat first
    [ apply keeps_widgetCommunication | apply keeps_this | apply keeps_emit
    | apply keeps_settled | apply keeps_ret
    | apply keeps_bind; [| intros ?] ].

Ltac safe_steps :=
  repeat first
    [ apply safe_widgetCommunication | apply safe_this | apply safe_settled
    | apply safe_ret | apply safe_throw | apply safe_getAccounts
    | apply safe_emit; intros ?; exact I
    | apply safe_bind; [| intros ?] ].

Section Invariants.

Variable lib : Library.

Lemma keeps_run_hook (h : hookCall) :
  h ≠ HGetAccounts → keeps_address (run_hook lib h).
Proof.
  intros Hh. destruct h; try done; simpl;
    unfold Hooks.signTransaction, Hooks.signMessage, Hooks.signPersonalMessage,
      Hooks.signTypedMessage, Hooks.gasPrice, estimateGas; keeps.
Qed.

Lemma keeps_relay (p : IPayload) : keeps_address (relay_handleRequest p).
Proof. unfold relay_handleRequest. keeps. Qed.

Lemma safe_run_hook (h : hookCall) : safe (run_hook lib h).
Proof.
  destruct h; simpl;
    unfold Hooks.signTransaction, Hooks.signMessage, Hooks.signPersonalMessage,
      Hooks.signTypedMessage, Hooks.gasPrice, estimateGas; safe_steps.
Qed.

Lemma safe_run_wallet (prog : walletProgram) : safe (run_wallet lib prog).
Proof.
  induction prog as [a | h k IH]; simpl.
  - apply safe_ret.
  - apply safe_bind; [apply safe_run_hook | intros r; apply IH].
Qed.

Lemma safe_relay (p : IPayload) : safe (relay_handleRequest p).
Proof. unfold relay_handleRequest. safe_steps. Qed.

Lemma safe_handleRequest (s : subprovider) (p : IPayload) :
  safe (handleRequest lib s p).
Proof.
  destruct s; simpl; try apply safe_ret.
  - apply safe_run_wallet.
  - apply safe_relay.
Qed.

Lemma safe_walk (stack : list subprovider) (p : IPayload) :
  safe (walk lib stack p).
Proof.
  induction stack as [| s rest IH]; simpl; [apply safe_ret |].
  apply safe_bind; [apply safe_emit; intros ?; exact I | intros _].
  apply safe_bind; [apply safe_handleRequest | intros [| e r]].
  - apply safe_bind; [apply safe_emit; intros ?; exact I | intros _; apply IH].
  - apply safe_bind; [apply safe_emit; intros ?; exact I | intros _; apply safe_ret].
Qed.

Lemma safe_sendAsync (p : IPayload) : safe (sendAsync lib p).
Proof.
  unfold sendAsync.
  apply safe_bind; [apply safe_emit; intros ?; exact I | intros _].
  apply safe_bind; [apply safe_this | intros w].
  apply safe_bind; [apply safe_walk | intros [e r |]]; apply safe_ret.
Qed.

Lemma safe_enable : safe (enable lib).
Proof.
  unfold enable.
  apply safe_bind; [apply safe_sendAsync | intros [e response]].
  destruct (truthy e); [apply safe_throw | apply safe_ret].
Qed.

Lemma send_preserves (p : IPayload) (callback : bool) (w : Portis) :
  preserves w (send lib p callback w).1.2 (send lib p callback w).2.
Proof.
  pose proof (safe_sendAsync p w) as Ha.
  unfold send. destruct callback.
  - destruct (sendAsync lib p w) as [[[[e r] | |] w1] t1]; exact Ha.
  - repeat (destruct (String.eqb _ _); simpl; [apply preserves_refl |]).
    destruct (String.eqb _ _); simpl; [| apply preserves_refl].
    destruct (sendAsync lib p w) as [[st w1] t1]; exact Ha.
Qed.

Lemma exec_preserves {A} (m : M A) (w : Portis) :
  safe m → preserves w (exec m w).1 (exec m w).2.
Proof.
  intros Hm. specialize (Hm w). unfold exec.
  destruct (m w) as [[st w1] t1]; exact Hm.
Qed.

Lemma perform_kept (o : operation) (w : Portis) :
  session_kept w (perform lib o w).1 (perform lib o w).2.
Proof.
  destruct o; simpl.
  - unfold exec, changeNetwork.
    destruct (networkAdapter lib network0);
      (repeat split; [constructor | by left]).
  - repeat split; [constructor | by left].
  - apply exec_preserves. unfold showPortis. safe_steps.
  - apply exec_preserves. unfold login. safe_steps.
  - repeat split; [constructor | by left].
  - pose proof (send_preserves payload callback w) as [_ H].
    destruct (send lib payload callback w) as [[st w1] t1]; exact H.
  - apply exec_preserves, safe_sendAsync.
  - apply exec_preserves, safe_enable.
  - unfold exec, _setHeight. unfold_M. simpl.
    destruct (promise_outcome (widget w)); simpl;
      (repeat split; [repeat constructor | by left]).
  - repeat split; [constructor | by left].
  - unfold exec, _onLogin. unfold_M. simpl.
    destruct (_onLoginCallback w); simpl;
      (repeat split; [repeat constructor | by left]).
Qed.

Lemma perform_all_kept (ops : list operation) (w : Portis) :
  widget (perform_all lib ops w).1 = widget w
  ∧ provider (perform_all lib ops w).1 = provider w
  ∧ Forall (quiet (promise_id (widget w))) (perform_all lib ops w).2.
Proof.
  revert w. induction ops as [| o rest IH]; intros w; simpl.
  - repeat split; constructor.
  - pose proof (perform_kept o w) as (Hw & Hp & Hq & _).
    destruct (perform lib o w) as [w1 t1]; simpl in *.
    specialize (IH w1). destruct (perform_all lib rest w1) as [w2 t2]; simpl in *.
    destruct IH as (Hw' & Hp' & Hq'). rewrite Hw in Hq'.
    repeat split; try congruence. by apply Forall_app.
Qed.

End Invariants.

(** ** The widget channel *)

Lemma widgetCommunication_run (w : Portis) :
  widgetCommunication w
  = (match promise_outcome (widget w) with
     | Fulfilled session => Done (communication session)
     | Rejected => Thrown
     | Pending => Suspended
     end, w, [EvAwait (promise_id (widget w))]).
Proof.
  unfold widgetCommunication. unfold_M. simpl.
  by destruct (promise_outcome (widget w)).
Qed.

Lemma awaits_widget_first {A} (k : IConnectionMethods → M A) (w : Portis) :
  first_awaits (promise_id (widget w)) (widgetCommunication ≫= k) w.
Proof.
  unfold first_awaits, mbind, M_bind. rewrite widgetCommunication_run.
  destruct (promise_outcome (widget w)) as [session | |]; simpl; try done.
  by destruct (k (communication session) w) as [[st w2] t2].
Qed.

Lemma widget_users_await_widget (w : Portis) :
  widget_users_await (promise_id (widget w)) w.
Proof. repeat split; intros; apply awaits_widget_first. Qed.

Lemma hooks_defer_to_widget (w : Portis) (session : WidgetSession) :
  promise_outcome (widget w) = Fulfilled session → defers_to_widget w.
Proof.
  intros Hw.
  unfold defers_to_widget, Hooks.getAccounts, Hooks.signTransaction,
    Hooks.signMessage, Hooks.signPersonalMessage, Hooks.signTypedMessage,
    relay_handleRequest.
  split; [| split; [| split]]; intros;
    rewrite ?Object_assign_standard;
    unfold mbind, M_bind; rewrite widgetCommunication_run, Hw;
    unfold_M; simpl.
  - destruct (remote_getAccounts (communication session) (config w)) as [r | |];
      simpl; try done.
    by destruct (negb (truthy (error r)) && truthy (result r)).
  - by destruct (remote_signTransaction (communication session) txParams (config w)).
  - split; [| split];
      match goal with
      | |- context [remote_signMessage ?c ?m ?g] => by destruct (remote_signMessage c m g)
      end.
  - by destruct (remote_relay (communication session) payload (config w)).
Qed.

(** ** The selected address *)

(** C6 as the specification words it: the selected address changes only
    through a [getAccounts] round trip without error whose result is a
    non-empty list, and becomes the first address of that list. *)
Definition changes_only_on_nonempty_accounts : Prop :=
  ∀ (lib : Library) (o : operation) (w : Portis),
    selectedAddress (perform lib o w).1 ≠ selectedAddress w →
    ∃ session r a rest,
      promise_outcome (widget w) = Fulfilled session
      ∧ remote_getAccounts (communication session) (config w) = Fulfilled r
      ∧ truthy (error r) = false
      ∧ result r = JArr (a :: rest)
      ∧ selectedAddress (perform lib o w).1 = a.

(** C6, counterexample: with ['0xABC'] selected, an [eth_accounts] request
    whose round trip resolves to [{ error: null, result: [] }] passes the
    hook's guard, the empty array being truthy, and the selected address
    becomes [undefined]. *)
Lemma empty_accounts_clear_selectedAddress :
  ¬ changes_only_on_nonempty_accounts.
Proof.
  intros H.
  destruct (H Example.lib (OpSendAsync (Example.request "eth_accounts"))
              Example.after_logout)
    as (session & r & a & rest & Hw & Hr & _ & Hres & _).
  - vm_compute. discriminate.
  - simpl in Hw. injection Hw as <-.
    simpl in Hr. injection Hr as <-.
    discriminate.
Qed.

(** C6, amended: no operation on the session changes the selected address
    except through a [getAccounts] round trip whose error is falsy and whose
    result is truthy, which any array is, the empty one included; the hook
    then stores [result[0]], the first address of a non-empty list, before
    it hands the reply to its callback.  The other hooks and the relay stage
    never write it. *)
Theorem selectedAddress_set_only_by_getAccounts (lib : Library) (w : Portis) :
  (∀ o : operation,
     selectedAddress (perform lib o w).1 = selectedAddress w
     ∨ ∃ session r,
         promise_outcome (widget w) = Fulfilled session
         ∧ remote_getAccounts (communication session) (config w) = Fulfilled r
         ∧ accounts_accepted r = true
         ∧ selectedAddress (perform lib o w).1 = index0 (result r)
         ∧ EvRemote (RGetAccounts (config w)) ∈ (perform lib o w).2)
  ∧ (∀ session r,
       promise_outcome (widget w) = Fulfilled session →
       remote_getAccounts (communication session) (config w) = Fulfilled r →
       Hooks.getAccounts w
       = (Done r,
          if accounts_accepted r then set_selectedAddress (index0 (result r)) w else w,
          [EvAwait (promise_id (widget w)); EvRemote (RGetAccounts (config w))]))
  ∧ (∀ h, h ≠ HGetAccounts →
       selectedAddress (run_hook lib h w).1.2 = selectedAddress w)
  ∧ (∀ p, selectedAddress (relay_handleRequest p w).1.2 = selectedAddress w).
Proof.
  split; [| split; [| split]].
  - intros o. by destruct (perform_kept lib o w) as (_ & _ & _ & Hs).
  - apply getAccounts_run.
  - intros h Hh. by apply keeps_run_hook.
  - intros p. apply keeps_relay.
Qed.

Lemma selectedAddress_set_only_by_getAccounts_witness :
  Hooks.getAccounts Example.portis
  = (Done {| error := JNull; result := JArr [JStr "0xABC"] |},
     set_selectedAddress (JStr "0xABC") Example.portis,
     [EvAwait 0; EvRemote (RGetAccounts Example.cfg)])
  ∧ selectedAddress
      (run_hook Example.lib (HSignMessage Example.message) Example.portis).1.2
    = JUndefined.
Proof.
  destruct (selectedAddress_set_only_by_getAccounts Example.lib Example.portis)
    as (_ & Hget & Hother & _).
  split.
  - exact (Hget (Example.session_of Example.comm)
             {| error := JNull; result := JArr [JStr "0xABC"] |} eq_refl eq_refl).
  - apply (Hother (HSignMessage Example.message)). discriminate.
Defined.

(** ** The widget handshake *)

Lemma ready_states_spec (s : string) :
  (-1 <? indexOf ready_states (JStr s)) = true ↔ s ∈ ready_states.
Proof.
  unfold indexOf, ready_states; simpl. rewrite !elem_of_cons.
  destruct (String.eqb_spec "loaded" s) as [<- | H1]; [split; auto |].
  destruct (String.eqb_spec "interactive" s) as [<- | H2]; [split; auto |].
  destruct (String.eqb_spec "complete" s) as [<- | H3]; [split; auto |].
  split; [discriminate |].
  intros [-> | [-> | [-> | Hnil]]]; try done. by apply elem_of_nil in Hnil.
Qed.

Lemma quiet_no_handshake (pid : nat) (t : trace) :
  Forall (quiet pid) t → handshakes t = 0%nat.
Proof.
  unfold handshakes. induction 1 as [| e t He _ IH]; [done |].
  destruct e; simpl in *; try done.
Qed.

Lemma quiet_awaits (pid : nat) (t : trace) :
  Forall (quiet pid) t → ∀ p, EvAwait p ∈ t → p = pid.
Proof.
  intros Hq p Hin. rewrite Forall_forall in Hq. exact (Hq _ Hin).
Qed.

(** C9 as the specification words it, in its part on laziness: the
    handshake is not started by the constructor but on first need. *)
Definition handshake_is_lazy : Prop :=
  ∀ (lib : Library) (env : Env) (d n : jsval) (o : IOptions) w0 onload t,
    constructor lib env d n o = (Constructed w0 onload, t) →
    handshakes t = 0%nat.

(** C9, counterexample: in a document that is already complete the
    constructor itself connects to the widget, before any operation is asked
    of the session. *)
Lemma constructor_starts_handshake : ¬ handshake_is_lazy.
Proof.
  intros H. specialize (H _ _ _ _ _ _ _ _ example_constructed).
  vm_compute in H. discriminate.
Qed.

(** C9, amended: the widget promise is created exactly once, by the
    constructor; the handshake behind it is started once, by the constructor
    itself when the document is loaded, interactive or complete, and
    otherwise by the window's load event if that arrives.  No operation on
    the session starts another handshake or replaces the promise; every
    await of an operation is on that one promise, and [showPortis], [login],
    the account and signing hooks and the relay stage all start by awaiting
    it. *)
Theorem widget_handshake_once
    (lib : Library) (env : Env) (d n : jsval) (o : IOptions)
    (w0 : Portis) (onload t : trace) (ops : list operation) :
  constructor lib env d n o = (Constructed w0 onload, t) →
  promise_id (widget w0) = fresh_promise env
  ∧ (readyState env ∈ ready_states → handshakes t = 1%nat ∧ onload = [])
  ∧ (readyState env ∉ ready_states →
       handshakes t = 0%nat
       ∧ handshakes onload = if load_fires env then 1%nat else 0%nat)
  ∧ widget (perform_all lib ops w0).1 = widget w0
  ∧ handshakes (perform_all lib ops w0).2 = 0%nat
  ∧ (∀ pid, EvAwait pid ∈ (perform_all lib ops w0).2 → pid = promise_id (widget w0))
  ∧ widget_users_await (promise_id (widget w0)) (perform_all lib ops w0).1.
Proof.
  intros Hc.
  destruct (perform_all_kept lib ops w0) as (Hw & _ & Hq).
  pose proof (widget_users_await_widget (perform_all lib ops w0).1) as Hu.
  rewrite Hw in Hu.
  unfold constructor in Hc.
  destruct (_valiadateParams d n o); [discriminate |].
  destruct (networkAdapter lib n); [| discriminate].
  unfold _initWidget in Hc.
  pose proof (ready_states_spec (readyState env)) as Hready.
  destruct (-1 <? indexOf ready_states (JStr (readyState env))) eqn:E;
    injection Hc as <- <- <-; simpl in *.
  - split; [done |]. split; [done |]. split.
    { intros Hn. exfalso. apply Hn. by apply Hready. }
    split; [done |].
    split; [by eapply quiet_no_handshake |]. split; [by apply quiet_awaits | done].
  - split; [done |]. split.
    { intros Hr. apply Hready in Hr. discriminate. }
    split. { intros _. split; [done |]. by destruct (load_fires env). }
    split; [done |].
    split; [by eapply quiet_no_handshake |]. split; [by apply quiet_awaits | done].
Qed.

(** ** The request pipeline *)

(** A computation that takes no part in the dispatch: it hands no request to
    a stage and calls neither [next] nor [end]. *)
Definition silent {A} (m : M A) : Prop := ∀ w, dispatch (m w).2 = [].

Lemma dispatch_app (t1 t2 : trace) : dispatch (t1 ++ t2) = dispatch t1 ++ dispatch t2.
Proof. apply filter_app. Qed.

Lemma silent_ret {A} (a : A) : silent (mret a).
Proof. by intros w. Qed.

Lemma silent_this : silent this.
Proof. by intros w. Qed.

Lemma silent_settled {A} (o : settle A) : silent (settled o).
Proof. by intros w. Qed.

Lemma silent_modify (f : Portis → Portis) : silent (modify f).
Proof. by intros w. Qed.

Lemma silent_emit (e : event) : is_dispatch e = false → silent (emit e).
Proof. intros He w. unfold emit, dispatch; simpl. by destruct e. Qed.

Lemma silent_bind {A B} (m : M A) (k : A → M B) :
  silent m → (∀ a, silent (k a)) → silent (m ≫= k).
Proof.
  intros Hm Hk w. specialize (Hm w). unfold mbind, M_bind.
  destruct (m w) as [[[a | |] w1] t1]; simpl in *; try done.
  specialize (Hk a w1). destruct (k a w1) as [[st w2] t2]; simpl in *.
  by rewrite dispatch_app, Hm, Hk.
Qed.

Ltac silent_steps :=
  repeat first
    [ apply silent_ret | apply silent_this | apply silent_settled
    | apply silent_modify | apply silent_emit; reflexivity
    | apply silent_bind; [| intros ?]
    | match goal with |- silent (if ?b then _ else _) => destruct b end ].

Lemma observed_dispatch (t : trace) : observed (dispatch t) = observed t.
Proof.
  unfold observed, dispatch. induction t as [| e t IH]; [done |].
  rewrite filter_cons.
  destruct e; simpl; try done. by f_equal.
Qed.

Lemma observed_passed_on (pre : list stageName) (rest : trace) :
  observed (passed_on pre ++ rest) = pre ++ observed rest.
Proof.
  induction pre as [| s pre IH]; [done |].
  simpl. f_equal. exact IH.
Qed.

Lemma next_passed_on (pre : list stageName) (s x : stageName) (closing : trace) :
  (∀ e, e ∈ closing → e ≠ EvNext x) →
  EvNext x ∈ passed_on pre ++ EvHandleRequest s :: closing → x ∈ pre.
Proof.
  intros Hc. induction pre as [| y pre IH]; simpl.
  - intros Hin. apply elem_of_cons in Hin as [[=] | Hin]. by apply Hc in Hin.
  - intros Hin. apply elem_of_cons in Hin as [[=] | Hin].
    apply elem_of_cons in Hin as [[= ->] | Hin]; [left |].
    right. by apply IH.
Qed.

Lemma dispatch_stage_next (s : stageName) (t1 t2 : trace) :
  dispatch t1 = [] →
  dispatch (EvHandleRequest s :: t1 ++ EvNext s :: t2)
  = EvHandleRequest s :: EvNext s :: dispatch t2.
Proof.
  intros H.
  change (dispatch ([EvHandleRequest s] ++ t1 ++ [EvNext s] ++ t2)
          = EvHandleRequest s :: EvNext s :: dispatch t2).
  rewrite !dispatch_app, H. reflexivity.
Qed.

Lemma dispatch_stage_end (s : stageName) (t1 closing : trace) :
  dispatch t1 = [] →
  dispatch (EvHandleRequest s :: t1 ++ closing)
  = EvHandleRequest s :: dispatch closing.
Proof.
  intros H.
  change (dispatch ([EvHandleRequest s] ++ t1 ++ closing)
          = EvHandleRequest s :: dispatch closing).
  rewrite !dispatch_app, H. reflexivity.
Qed.

Section Pipeline.

Variable lib : Library.

Lemma silent_run_hook (h : hookCall) : silent (run_hook lib h).
Proof.
  destruct h; simpl;
    unfold Hooks.getAccounts, Hooks.signTransaction, Hooks.signMessage,
      Hooks.signPersonalMessage, Hooks.signTypedMessage, Hooks.gasPrice,
      estimateGas, widgetCommunication; silent_steps.
Qed.

Lemma silent_run_wallet (prog : walletProgram) : silent (run_wallet lib prog).
Proof.
  induction prog as [a | h k IH]; simpl; [apply silent_ret |].
  apply silent_bind; [apply silent_run_hook | intros r; apply IH].
Qed.

Lemma silent_handleRequest (s : subprovider) (p : IPayload) :
  silent (handleRequest lib s p).
Proof.
  destruct s; simpl; try apply silent_ret.
  - apply silent_run_wallet.
  - unfold relay_handleRequest, widgetCommunication. silent_steps.
Qed.

Lemma walk_cons (s : subprovider) (rest : list subprovider)
    (p : IPayload) (w : Portis) :
  walk lib (s :: rest) p w
  = match handleRequest lib s p w with
    | (Done Next, w1, t1) =>
        let '(o, w2, t2) := walk lib rest p w1 in
        (o, w2, EvHandleRequest (stage_name s) :: t1 ++ EvNext (stage_name s) :: t2)
    | (Done (End e r), w1, t1) =>
        (Done (Ended e r), w1,
         EvHandleRequest (stage_name s) :: t1 ++ [EvEnd (stage_name s) e r])
    | (Thrown, w1, t1) => (Thrown, w1, EvHandleRequest (stage_name s) :: t1)
    | (Suspended, w1, t1) => (Suspended, w1, EvHandleRequest (stage_name s) :: t1)
    end.
Proof.
  simpl. unfold_M. simpl.
  destruct (handleRequest lib s p w) as [[[[| e r] | |] w1] t1]; simpl; try done.
  destruct (walk lib rest p w1) as [[o w2] t2]; done.
Qed.

(** How far a request gets: either every stage passed it on, or it
    stopped at a stage [s] that ended it or never answered. *)
Lemma walk_dispatch (stack : list subprovider) (p : IPayload) (w : Portis) :
  match (walk lib stack p w).1.1 with
  | Done NoHandler =>
      dispatch (walk lib stack p w).2 = passed_on (stage_name <$> stack)
  | st =>
      ∃ pre s post,
        stack = pre ++ s :: post
        ∧ dispatch (walk lib stack p w).2
          = passed_on (stage_name <$> pre)
            ++ EvHandleRequest (stage_name s)
               :: match st with
                  | Done (Ended e r) => [EvEnd (stage_name s) e r]
                  | _ => []
                  end
  end.
Proof.
  revert w. induction stack as [| s rest IH]; intros w; [done |].
  rewrite walk_cons.
  pose proof (silent_handleRequest s p w) as Hs.
  destruct (handleRequest lib s p w) as [[[[| e r] | |] w1] t1]; simpl in *.
  - specialize (IH w1).
    destruct (walk lib rest p w1) as [[o w2] t2]; simpl in *.
    rewrite (dispatch_stage_next _ _ _ Hs).
    destruct o as [[e r |] | |].
    + destruct IH as (pre & s0 & post & -> & ->).
      exists (s :: pre), s0, post. done.
    + by rewrite IH.
    + destruct IH as (pre & s0 & post & -> & ->).
      exists (s :: pre), s0, post. done.
    + destruct IH as (pre & s0 & post & -> & ->).
      exists (s :: pre), s0, post. done.
  - exists [], s, rest. split; [done |].
    by rewrite (dispatch_stage_end _ _ _ Hs).
  - exists [], s, rest. split; [done |].
    rewrite <- (app_nil_r t1). by rewrite (dispatch_stage_end _ _ _ Hs).
  - exists [], s, rest. split; [done |].
    rewrite <- (app_nil_r t1). by rewrite (dispatch_stage_end _ _ _ Hs).
Qed.

Lemma walk_app (pre post : list subprovider) (p : IPayload) (w : Portis) :
  walk lib (pre ++ post) p w
  = match walk lib pre p w with
    | (Done NoHandler, w1, t1) =>
        let '(o, w2, t2) := walk lib post p w1 in (o, w2, t1 ++ t2)
    | other => other
    end.
Proof.
  revert w. induction pre as [| s pre IH]; intros w.
  - simpl. unfold mret, M_ret. by destruct (walk lib post p w) as [[o w2] t2].
  - rewrite <- app_comm_cons, !walk_cons.
    destruct (handleRequest lib s p w) as [[[[| e r] | |] w1] t1]; try done.
    rewrite IH.
    destruct (walk lib pre p w1) as [[[[e r |] | |] w2] t2]; try done.
    destruct (walk lib post p w2) as [[o w3] t3].
    simpl. by rewrite <- app_assoc.
Qed.

Lemma relay_run (p : IPayload) (w : Portis) (session : WidgetSession) (r : reply) :
  promise_outcome (widget w) = Fulfilled session →
  remote_relay (communication session) p (config w) = Fulfilled r →
  relay_handleRequest p w
  = (Done (End (error r) (result r)), w,
     [EvAwait (promise_id (widget w)); EvRemote (RRelay p (config w))]).
Proof.
  intros Hw Hr. unfold relay_handleRequest, widgetCommunication.
  unfold_M. simpl. rewrite Hw. simpl. by rewrite Hr.
Qed.

Lemma relay_not_next (p : IPayload) (w : Portis) :
  (relay_handleRequest p w).1.1 ≠ Done Next.
Proof.
  unfold relay_handleRequest, widgetCommunication. unfold_M. simpl.
  destruct (promise_outcome (widget w)) as [session | |]; simpl; try done.
  destruct (remote_relay (communication session) p (config w)); simpl; done.
Qed.

(** A chain that ends with the relay stage always has a handler. *)
Lemma walk_ends_with_relay (pre : list subprovider) (p : IPayload) (w : Portis) :
  (walk lib (pre ++ [RelaySubprovider]) p w).1.1 ≠ Done NoHandler.
Proof.
  revert w. induction pre as [| s pre IH]; intros w.
  - simpl app. rewrite walk_cons. simpl handleRequest.
    pose proof (relay_not_next p w) as Hn.
    destruct (relay_handleRequest p w) as [[[[| e r] | |] w1] t1]; simpl in *; done.
  - rewrite <- app_comm_cons, walk_cons.
    destruct (handleRequest lib s p w) as [[[[| e r] | |] w1] t1]; simpl; try done.
    specialize (IH w1).
    by destruct (walk lib (pre ++ [RelaySubprovider]) p w1) as [[o w2] t2].
Qed.

Lemma sendAsync_unfold (p : IPayload) (w : Portis) :
  sendAsync lib p w
  = let '(o, w', t) := walk lib (_providers (provider w)) p w in
    (match o with
     | Done (Ended e r) =>
         Done (e, {| resp_id := payload_id p; resp_jsonrpc := payload_jsonrpc p;
                     resp_body := if truthy e then RError e else RResult r |})
     | Done NoHandler =>
         Done (no_handler_error (payload_method p),
               {| resp_id := payload_id p; resp_jsonrpc := payload_jsonrpc p;
                  resp_body := if truthy (no_handler_error (payload_method p))
                               then RError (no_handler_error (payload_method p))
                               else RResult JUndefined |})
     | Thrown => Thrown
     | Suspended => Suspended
     end, w', EvSendAsync p :: t).
Proof.
  unfold sendAsync. unfold_M. simpl.
  destruct (walk lib _ p w) as [[[[e r |] | |] w1] t1]; simpl;
    by rewrite ?app_nil_r.
Qed.

Lemma sendAsync_dispatch (p : IPayload) (w : Portis) :
  dispatch (sendAsync lib p w).2
  = dispatch (walk lib (_providers (provider w)) p w).2.
Proof.
  rewrite sendAsync_unfold.
  by destruct (walk lib _ p w) as [[o w1] t1].
Qed.

Lemma reachable_provider (w : Portis) :
  reachable lib w →
  _providers (provider w)
  = [ FixtureSubprovider (fixture_table PORTIS_SDK_VERSION); CacheSubprovider;
      SubscriptionsSubprovider; FilterSubprovider; NonceSubprovider;
      HookedWalletSubprovider ] ++ [RelaySubprovider].
Proof.
  intros (env & d & n & o & w0 & onload & t & ops & Hc & <-).
  destruct (perform_all_kept lib ops w0) as (_ & -> & _).
  unfold constructor in Hc.
  destruct (_valiadateParams d n o); [discriminate |].
  destruct (networkAdapter lib n); [| discriminate].
  destruct (_initWidget env widgetUrl) as [[pw t0] later].
  by injection Hc as <- _ _.
Qed.

End Pipeline.

Lemma fixture_table_methods (version method : string) :
  is_Some (fixture_table version !! method) ↔ method ∈ fixture_methods.
Proof.
  unfold fixture_table, fixture_methods.
  rewrite !lookup_insert_is_Some, lookup_empty, !elem_of_cons, elem_of_nil.
  split.
  - intros [<- | [_ [<- | [_ [<- | [_ [<- | [_ [<- | [_ H]]]]]]]]]]; auto 10.
    by destruct H.
  - intros [-> | [-> | [-> | [-> | [-> | []]]]]].
    + by left.
    + right. split; [done |]. by left.
    + right. split; [done |]. right. split; [done |]. by left.
    + right. split; [done |]. right. split; [done |]. right. split; [done |].
      by left.
    + right. split; [done |]. right. split; [done |]. right. split; [done |].
      right. split; [done |]. by left.
Qed.

Lemma pipeline_order_NoDup : NoDup pipeline_order.
Proof.
  unfold pipeline_order.
  repeat (apply NoDup_cons; split;
          [rewrite ?elem_of_cons, elem_of_nil; intuition discriminate |]).
  apply NoDup_nil_2.
Qed.

(** C1: the engine of a session holds the seven stages Fixture, Cache,
    Subscriptions, Filter, Nonce, HookedWallet, Relay, registered in this
    order.  The fixture table holds the five introspection methods, and a
    method of the table is answered by the Fixture stage with the table's
    value.  The hooks of the HookedWallet stage and the Relay stage place
    their call on the widget channel.  Every request is handed to the stages in
    registration order up to one stage [s]: each stage before [s] called
    [next], only [s] may have called [end], and no stage registered after
    [s] was handed the request. *)
Theorem pipeline_order_and_short_circuit
    (lib : Library) (w : Portis) (p : IPayload) :
  reachable lib w →
  map stage_name (_providers (provider w)) = pipeline_order
  ∧ (is_Some (fixture_table PORTIS_SDK_VERSION !! payload_method p)
     ↔ payload_method p ∈ fixture_methods)
  ∧ (∀ v, fixture_table PORTIS_SDK_VERSION !! payload_method p = Some v →
       dispatch (sendAsync lib p w).2 = [EvHandleRequest Fixture; EvEnd Fixture JNull v])
  ∧ (∀ session, promise_outcome (widget w) = Fulfilled session → defers_to_widget w)
  ∧ ∃ pre s post,
      pipeline_order = pre ++ s :: post
      ∧ (dispatch (sendAsync lib p w).2 = passed_on pre ++ [EvHandleRequest s]
         ∨ ∃ e r, dispatch (sendAsync lib p w).2
                  = passed_on pre ++ [EvHandleRequest s; EvEnd s e r])
      ∧ observed (sendAsync lib p w).2 = pre ++ [s]
      ∧ ∀ s', s' ∈ post → s' ∉ observed (sendAsync lib p w).2.
Proof.
  intros Hreach. pose proof (reachable_provider lib w Hreach) as Hstack.
  split; [by rewrite Hstack |]. split; [apply fixture_table_methods |].
  split; [| split; [apply hooks_defer_to_widget |]].
  - intros v Hv. rewrite sendAsync_dispatch, Hstack. simpl app.
    rewrite walk_cons. simpl. unfold fixture_handleRequest, mret, M_ret.
    rewrite Hv. reflexivity.
  - pose proof (walk_dispatch lib (_providers (provider w)) p w) as Hd.
    pose proof (walk_ends_with_relay lib
      [ FixtureSubprovider (fixture_table PORTIS_SDK_VERSION); CacheSubprovider;
        SubscriptionsSubprovider; FilterSubprovider; NonceSubprovider;
        HookedWalletSubprovider ] p w) as Hrelay.
    rewrite <- Hstack in Hrelay.
    assert (Hdec : ∃ pre s post closing,
               _providers (provider w) = pre ++ s :: post
               ∧ dispatch (sendAsync lib p w).2
                 = passed_on (stage_name <$> pre)
                   ++ EvHandleRequest (stage_name s) :: closing
               ∧ (closing = [] ∨ ∃ e r, closing = [EvEnd (stage_name s) e r])).
    { rewrite sendAsync_dispatch.
      destruct ((walk lib (_providers (provider w)) p w).1.1)
        as [[e r |] | |]; try done.
      - destruct Hd as (pre & s & post & H1 & H2).
        exists pre, s, post, [EvEnd (stage_name s) e r].
        split; [exact H1 |]. split; [exact H2 |]. right. by exists e, r.
      - destruct Hd as (pre & s & post & H1 & H2). exists pre, s, post, [].
        split; [exact H1 |]. split; [exact H2 |]. by left.
      - destruct Hd as (pre & s & post & H1 & H2). exists pre, s, post, [].
        split; [exact H1 |]. split; [exact H2 |]. by left. }
    destruct Hdec as (pre & s & post & closing & Hsplit & Hlog & Hclosing).
    assert (Horder : pipeline_order
                     = (stage_name <$> pre) ++ stage_name s :: (stage_name <$> post)).
    { rewrite <- fmap_cons, <- fmap_app, <- Hsplit, Hstack. reflexivity. }
    assert (Hobs : observed (sendAsync lib p w).2 = (stage_name <$> pre) ++ [stage_name s]).
    { rewrite <- observed_dispatch, Hlog, observed_passed_on.
      destruct Hclosing as [-> | (e & r & ->)]; reflexivity. }
    exists (stage_name <$> pre), (stage_name s), (stage_name <$> post).
    split; [exact Horder |]. split; [| split; [exact Hobs |]].
    + destruct Hclosing as [-> | (e & r & ->)]; [by left | right; eauto].
    + intros s' Hpost. rewrite Hobs.
      pose proof pipeline_order_NoDup as Hnd.
      rewrite Horder, (cons_middle (stage_name s)), app_assoc in Hnd.
      apply NoDup_app in Hnd as (_ & Hdisj & _).
      intros Hin. by apply (Hdisj s').
Qed.

(** ** The relay stage as backstop *)

Lemma wallet_is_last (pre post : list subprovider) (s : subprovider) :
  stages_before_relay = pre ++ s :: post →
  HookedWallet ∉ stage_name <$> pre.
Proof.
  unfold stages_before_relay. intros Hsplit Hin.
  do 6 (destruct pre as [| ? pre]; simpl in *;
        [ repeat (apply elem_of_cons in Hin as [[=] | Hin]);
          by apply elem_of_nil in Hin
        | injection Hsplit as <- Hsplit ]).
  by destruct pre.
Qed.

Lemma walk_relay_only (lib : Library) (p : IPayload) (w : Portis) :
  ∃ closing,
    dispatch (walk lib [RelaySubprovider] p w).2 = EvHandleRequest Relay :: closing
    ∧ observed closing = [].
Proof.
  pose proof (walk_dispatch lib [RelaySubprovider] p w) as Hd.
  pose proof (walk_ends_with_relay lib [] p w) as Hn. simpl app in Hn.
  destruct ((walk lib [RelaySubprovider] p w).1.1) as [[e r |] | |]; try done;
    destruct Hd as (pre & s & post & Hsplit & ->);
    (destruct pre as [| ? pre]; [| by destruct pre]);
    injection Hsplit as <- <-; simpl; eauto.
Qed.

(** When the stage before the relay has called [next], the six stages
    before the relay have all passed the request on, leaving the session's
    config and widget promise as they were, and the relay stage runs. *)
Lemma backstop_run (lib : Library) (w : Portis) (p : IPayload) :
  reachable lib w →
  EvNext HookedWallet ∈ (sendAsync lib p w).2 →
  ∃ w1 t1,
    walk lib stages_before_relay p w = (Done NoHandler, w1, t1)
    ∧ config w1 = config w ∧ widget w1 = widget w
    ∧ dispatch t1 = passed_on (stage_name <$> stages_before_relay).
Proof.
  intros Hreach Hnext.
  rewrite sendAsync_unfold, (reachable_provider lib w Hreach), walk_app in Hnext.
  fold stages_before_relay in Hnext.
  pose proof (walk_dispatch lib stages_before_relay p w) as Hd.
  pose proof (safe_walk lib stages_before_relay p w) as (Hc & Hw & _).
  destruct (walk lib stages_before_relay p w) as [[st w1] t1]; simpl in *.
  assert (Hstop : ∀ closing pre s post,
            stages_before_relay = pre ++ s :: post →
            dispatch t1 = passed_on (stage_name <$> pre)
                          ++ EvHandleRequest (stage_name s) :: closing →
            (∀ e, e ∈ closing → e ≠ EvNext HookedWallet) →
            EvNext HookedWallet ∈ EvSendAsync p :: t1 → False).
  { intros closing pre s post Hsplit Hlog Hcl Hin.
    apply elem_of_cons in Hin as [[=] | Hin].
    assert (Hin' : EvNext HookedWallet ∈ dispatch t1)
      by (apply list_elem_of_filter; split; [exact I | exact Hin]).
    rewrite Hlog in Hin'. apply next_passed_on in Hin'; [| exact Hcl].
    by apply (wallet_is_last pre post s). }
  destruct st as [[e r |] | |].
  - destruct Hd as (pre & s & post & Hsplit & Hlog). exfalso.
    eapply (Hstop _ pre s post Hsplit Hlog); [| exact Hnext].
    intros ev Hev. apply list_elem_of_singleton in Hev as ->. discriminate.
  - exists w1, t1. done.
  - destruct Hd as (pre & s & post & Hsplit & Hlog). exfalso.
    eapply (Hstop _ pre s post Hsplit Hlog); [| exact Hnext].
    intros ev Hev. by apply elem_of_nil in Hev.
  - destruct Hd as (pre & s & post & Hsplit & Hlog). exfalso.
    eapply (Hstop _ pre s post Hsplit Hlog); [| exact Hnext].
    intros ev Hev. by apply elem_of_nil in Hev.
Qed.

Lemma relay_unanswered (p : IPayload) (w : Portis) :
  (∀ session r,
     promise_outcome (widget w) = Fulfilled session →
     remote_relay (communication session) p (config w) ≠ Fulfilled r) →
  (∀ a, (relay_handleRequest p w).1.1 ≠ Done a)
  ∧ (relay_handleRequest p w).1.2 = w.
Proof.
  intros Hno. unfold relay_handleRequest, mbind, M_bind.
  rewrite widgetCommunication_run.
  destruct (promise_outcome (widget w)) as [session | |] eqn:Hw; simpl; try done.
  unfold_M. simpl. specialize (Hno session).
  destruct (remote_relay (communication session) p (config w)) as [r | |];
    simpl; try done.
  by destruct (Hno r).
Qed.

(** A request that has reached the relay stage and finds no resolved round
    trip: the relay stage neither passes it on nor ends it. *)
Lemma unanswered_at_relay (lib : Library) (w : Portis) (p : IPayload) :
  reachable lib w →
  EvNext HookedWallet ∈ (sendAsync lib p w).2 →
  (∀ session r,
     promise_outcome (widget w) = Fulfilled session →
     remote_relay (communication session) p (config w) ≠ Fulfilled r) →
  (∀ answer, (sendAsync lib p w).1.1 ≠ Done answer)
  ∧ dispatch (sendAsync lib p w).2
    = passed_on [Fixture; Cache; Subscriptions; Filter; Nonce; HookedWallet]
      ++ [EvHandleRequest Relay].
Proof.
  intros Hreach Hnext Hno.
  destruct (backstop_run lib w p Hreach Hnext) as (w1 & t1 & Hsix & Hc & Hw & Hlog).
  pose proof (reachable_provider lib w Hreach) as Hstack.
  fold stages_before_relay in Hstack.
  assert (Hno1 : ∀ session r,
            promise_outcome (widget w1) = Fulfilled session →
            remote_relay (communication session) p (config w1) ≠ Fulfilled r)
    by (by rewrite Hw, Hc).
  destruct (relay_unanswered p w1 Hno1) as [Hnever _].
  pose proof (silent_handleRequest lib RelaySubprovider p w1) as Hsilent.
  assert (Hrun : ∃ st w2 t2,
            sendAsync lib p w = (st, w2, EvSendAsync p :: t1 ++ EvHandleRequest Relay :: t2)
            ∧ (∀ answer, st ≠ Done answer) ∧ dispatch t2 = []).
  { rewrite sendAsync_unfold, Hstack, walk_app, Hsix, walk_cons.
    simpl handleRequest in *.
    destruct (relay_handleRequest p w1) as [[[a | |] w2] t2]; simpl in *.
    - by destruct (Hnever a).
    - exists Thrown, w2, t2. done.
    - exists Suspended, w2, t2. done. }
  destruct Hrun as (st & w2 & t2 & Hrun & Hst & Ht2).
  split; [by rewrite Hrun |].
  rewrite Hrun. simpl.
  change (dispatch (EvSendAsync p :: t1 ++ EvHandleRequest Relay :: t2))
    with (dispatch (t1 ++ [EvHandleRequest Relay] ++ t2)).
  by rewrite !dispatch_app, Hlog, Ht2.
Qed.

Lemma relay_down_reachable : reachable Example.lib RelayDown.portis.
Proof.
  exists RelayDown.env, (JStr "my-dapp"), (JStr "mainnet"), Example.no_options,
    RelayDown.portis, [], (onload_effects widgetUrl 1500000000000), [].
  split; reflexivity.
Defined.

Lemma relay_down_passed_on :
  Forall (λ s, EvNext s ∈ (sendAsync Example.lib (Example.request "eth_blockNumber")
                              RelayDown.portis).2)
    [Fixture; Cache; Subscriptions; Filter; Nonce; HookedWallet].
Proof.
  repeat apply Forall_cons_2; [.. | apply Forall_nil_2];
    apply list_elem_of_lookup.
  - by exists 2%nat.
  - by exists 4%nat.
  - by exists 6%nat.
  - by exists 8%nat.
  - by exists 10%nat.
  - by exists 12%nat.
Qed.

(** C2 as the specification words it: whenever none of the six stages
    before it ends a request, the relay stage ends it. *)
Definition relay_always_ends : Prop :=
  ∀ (lib : Library) (w : Portis) (p : IPayload),
    reachable lib w →
    Forall (λ s, EvNext s ∈ (sendAsync lib p w).2)
      [Fixture; Cache; Subscriptions; Filter; Nonce; HookedWallet] →
    ∃ e r, EvEnd Relay e r ∈ (sendAsync lib p w).2.

(** C2, counterexample: on a session whose widget is connected and whose
    remote [relay] call rejects, [eth_blockNumber] passes the six stages,
    reaches the relay stage and is never ended: the handler has no catch,
    so [end] is not called. *)
Lemma rejected_relay_never_ends : ¬ relay_always_ends.
Proof.
  intros H.
  destruct (H Example.lib RelayDown.portis (Example.request "eth_blockNumber")
              relay_down_reachable relay_down_passed_on) as (e & r & Hin).
  assert (Hd : EvEnd Relay e r
               ∈ dispatch (sendAsync Example.lib (Example.request "eth_blockNumber")
                             RelayDown.portis).2)
    by (apply list_elem_of_filter; split; [exact I | exact Hin]).
  destruct (unanswered_at_relay Example.lib RelayDown.portis
              (Example.request "eth_blockNumber") relay_down_reachable) as [_ Hlog].
  - apply list_elem_of_lookup. by exists 12%nat.
  - intros session r' [= <-]. discriminate.
  - rewrite Hlog in Hd. simpl in Hd.
    repeat (apply elem_of_cons in Hd as [Hd | Hd]; [discriminate |]).
    by apply elem_of_nil in Hd.
Qed.

(** C2, amended: a chain that ends with the relay stage never runs out of
    handlers.  When each of the six stages before it has called [next], the
    relay stage is handed the request exactly once.  Once the widget session
    is there and the [relay] round trip has resolved to [{ error, result }]
    it calls [end(error, result)], which the caller's callback receives;
    when the widget promise or the round trip rejects or never settles it
    calls neither [next] nor [end], and the request is left unanswered. *)
Theorem relay_is_backstop (lib : Library) (w : Portis) (p : IPayload) :
  reachable lib w →
  Forall (λ s, EvNext s ∈ (sendAsync lib p w).2)
    [Fixture; Cache; Subscriptions; Filter; Nonce; HookedWallet] →
  length (filter (λ s, s = Relay) (observed (sendAsync lib p w).2)) = 1%nat
  ∧ (walk lib (_providers (provider w)) p w).1.1 ≠ Done NoHandler
  ∧ (∀ session r,
       promise_outcome (widget w) = Fulfilled session →
       remote_relay (communication session) p (config w) = Fulfilled r →
       (sendAsync lib p w).1.1
       = Done (error r,
               {| resp_id := payload_id p; resp_jsonrpc := payload_jsonrpc p;
                  resp_body := if truthy (error r) then RError (error r)
                               else RResult (result r) |})
       ∧ dispatch (sendAsync lib p w).2
         = passed_on [Fixture; Cache; Subscriptions; Filter; Nonce; HookedWallet]
           ++ [EvHandleRequest Relay; EvEnd Relay (error r) (result r)]
       ∧ EvRemote (RRelay p (config w)) ∈ (sendAsync lib p w).2)
  ∧ ((∀ session r,
        promise_outcome (widget w) = Fulfilled session →
        remote_relay (communication session) p (config w) ≠ Fulfilled r) →
     (∀ answer, (sendAsync lib p w).1.1 ≠ Done answer)
     ∧ dispatch (sendAsync lib p w).2
       = passed_on [Fixture; Cache; Subscriptions; Filter; Nonce; HookedWallet]
         ++ [EvHandleRequest Relay]).
Proof.
  intros Hreach Hnexts.
  assert (Hnext : EvNext HookedWallet ∈ (sendAsync lib p w).2).
  { rewrite Forall_forall in Hnexts. apply Hnexts. do 5 right. left. }
  destruct (backstop_run lib w p Hreach Hnext) as (w1 & t1 & Hsix & Hc & Hw & Hlog).
  pose proof (reachable_provider lib w Hreach) as Hstack.
  fold stages_before_relay in Hstack.
  split; [| split; [| split]]; [| | | by apply unanswered_at_relay].
  - rewrite <- observed_dispatch, sendAsync_dispatch, Hstack, walk_app, Hsix.
    destruct (walk_relay_only lib p w1) as (closing & Hrelay & Hquiet).
    destruct (walk lib [RelaySubprovider] p w1) as [[o w2] t2].
    cbn [fst snd] in *.
    rewrite dispatch_app, Hlog, Hrelay, observed_passed_on.
    change (observed (EvHandleRequest Relay :: closing))
      with (Relay :: observed closing).
    rewrite Hquiet. reflexivity.
  - rewrite Hstack. apply walk_ends_with_relay.
  - intros session r Hsession Hreply.
    rewrite <- Hw in Hsession. rewrite <- Hc in Hreply.
    rewrite sendAsync_unfold, Hstack, walk_app, Hsix, walk_cons.
    simpl handleRequest. rewrite (relay_run p w1 session r Hsession Hreply).
    cbn [fst snd stage_name]. rewrite Hc, Hw.
    split; [reflexivity |]. split.
    + change (dispatch (EvSendAsync p :: t1 ++ ?t)) with (dispatch (t1 ++ t)).
      rewrite dispatch_app, Hlog. reflexivity.
    + right. apply elem_of_app. right. do 2 right. left.
Qed.

(** ** The properties on the concrete session *)

Lemma pipeline_order_and_short_circuit_witness :
  map stage_name (_providers (provider Example.portis)) = pipeline_order
  ∧ dispatch (sendAsync Example.lib (Example.request "net_listening") Example.portis).2
    = [EvHandleRequest Fixture; EvEnd Fixture JNull (JBool true)].
Proof.
  destruct (pipeline_order_and_short_circuit Example.lib Example.portis
              (Example.request "net_listening") example_reachable)
    as (Horder & _ & Hfixture & _ & _).
  split; [exact Horder |]. apply Hfixture. reflexivity.
Defined.

Lemma relay_is_backstop_witness :
  (sendAsync Example.lib (Example.request "eth_blockNumber") Example.portis).1.1
  = Done (JNull, {| resp_id := JNum 7; resp_jsonrpc := JStr "2.0";
                    resp_body := RResult (JStr "0x10") |})
  ∧ length (filter (λ s, s = Relay)
      (observed (sendAsync Example.lib (Example.request "eth_blockNumber")
                   Example.portis).2)) = 1%nat
  ∧ (∀ answer,
       (sendAsync Example.lib (Example.request "eth_blockNumber")
          RelayDown.portis).1.1 ≠ Done answer).
Proof.
  assert (Hnexts : Forall
            (λ s, EvNext s ∈ (sendAsync Example.lib (Example.request "eth_blockNumber")
                                Example.portis).2)
            [Fixture; Cache; Subscriptions; Filter; Nonce; HookedWallet]).
  { repeat apply Forall_cons_2; [.. | apply Forall_nil_2];
      apply list_elem_of_lookup.
    - by exists 2%nat.
    - by exists 4%nat.
    - by exists 6%nat.
    - by exists 8%nat.
    - by exists 10%nat.
    - by exists 12%nat. }
  destruct (relay_is_backstop Example.lib Example.portis
              (Example.request "eth_blockNumber") example_reachable Hnexts)
    as (Honce & _ & Hend & _).
  destruct (Hend (Example.session_of Example.comm)
              {| error := JNull; result := JStr "0x10" |} eq_refl eq_refl)
    as (Hresponse & _).
  split; [exact Hresponse | split; [exact Honce |]].
  destruct (relay_is_backstop Example.lib RelayDown.portis
              (Example.request "eth_blockNumber") relay_down_reachable
              relay_down_passed_on)
    as (_ & _ & _ & Hdown).
  apply Hdown. intros session r [= <-]. discriminate.
Defined.

Lemma widget_handshake_once_witness :
  let ops := [OpShowPortis; OpSendAsync (Example.request "eth_accounts"); OpLogin] in
  handshakes (onload_effects widgetUrl 1500000000000) = 1%nat
  ∧ widget (perform_all Example.lib ops Example.portis).1 = widget Example.portis
  ∧ handshakes (perform_all Example.lib ops Example.portis).2 = 0%nat.
Proof.
  intros ops.
  destruct (widget_handshake_once Example.lib Example.env (JStr "my-dapp")
              (JStr "mainnet") Example.no_options Example.portis []
              (onload_effects widgetUrl 1500000000000) ops example_constructed)
    as (_ & Hready & _ & Hwidget & Hquiet & _ & _).
  split; [| split; [exact Hwidget | exact Hquiet]].
  apply Hready. do 2 right. left.
Defined.

(** * Further properties of the session *)

(** ** Which error the constructor raises *)

(** X1: the checks of [_valiadateParams] are made in a fixed order and the
    first one that fails decides the error: a falsy [dappId] raises the
    dappId error whatever the other arguments are, then a falsy [network]
    the network error whatever the scope is, then a truthy scope that is
    not an array the must-be-an-array error, then an array with an entry
    other than ['email'] the invalid-scope error.  The four messages are
    pairwise different. *)
Theorem validation_error_precedence (d n : jsval) (o : IOptions) :
  (truthy d = false → _valiadateParams d n o = Some err_dappId)
  ∧ (truthy d = true → truthy n = false →
     _valiadateParams d n o = Some err_network)
  ∧ (truthy d = true → truthy n = true →
     truthy (options_scope o) = true → isArray (options_scope o) = false →
     _valiadateParams d n o = Some err_scope_array)
  ∧ (truthy d = true → truthy n = true →
     ∀ items item, options_scope o = JArr items →
       item ∈ items → item ≠ JStr "email" →
       _valiadateParams d n o = Some err_scope_invalid)
  ∧ NoDup [err_dappId; err_network; err_scope_array; err_scope_invalid].
Proof.
  unfold _valiadateParams.
  split; [by intros -> |]. split; [by intros -> -> |].
  split; [| split].
  - intros -> -> Ht Ha. simpl. rewrite Ht.
    by destruct (options_scope o).
  - intros -> -> items item -> Hin Hne. simpl.
    assert (H : (0 <? Z.of_nat (length
              (filter (λ item, indexOf ["email"] item <? 0) items))) = true)
      by (apply scope_items_rejected; eauto).
    by rewrite H.
  - repeat (apply NoDup_cons; split;
            [rewrite ?elem_of_cons, elem_of_nil; intuition discriminate |]).
    apply NoDup_nil_2.
Qed.

Lemma validation_error_precedence_witness :
  _valiadateParams JUndefined JUndefined {| options_scope := JStr "email" |}
  = Some err_dappId
  ∧ _valiadateParams (JStr "my-dapp") (JStr "") {| options_scope := JStr "email" |}
    = Some err_network
  ∧ _valiadateParams (JStr "my-dapp") (JStr "mainnet") {| options_scope := JStr "email" |}
    = Some err_scope_array
  ∧ _valiadateParams (JStr "my-dapp") (JStr "mainnet")
      {| options_scope := JArr [JStr "email"; JStr "phone"] |}
    = Some err_scope_invalid.
Proof.
  destruct (validation_error_precedence JUndefined JUndefined
              {| options_scope := JStr "email" |}) as (H1 & _).
  destruct (validation_error_precedence (JStr "my-dapp") (JStr "")
              {| options_scope := JStr "email" |}) as (_ & H2 & _).
  destruct (validation_error_precedence (JStr "my-dapp") (JStr "mainnet")
              {| options_scope := JStr "email" |}) as (_ & _ & H3 & _).
  destruct (validation_error_precedence (JStr "my-dapp") (JStr "mainnet")
              {| options_scope := JArr [JStr "email"; JStr "phone"] |})
    as (_ & _ & _ & H4 & _).
  split; [by apply H1 |]. split; [by apply H2 |]. split; [by apply H3 |].
  apply (H4 eq_refl eq_refl [JStr "email"; JStr "phone"] (JStr "phone") eq_refl).
  - right. left.
  - discriminate.
Defined.

(** ** What the pipeline leaves alone *)

Lemma same_but_address_refl (w : Portis) : same_but_address w w.
Proof. by destruct w. Qed.

Lemma same_but_address_set (a : jsval) (w : Portis) :
  same_but_address w (set_selectedAddress a w).
Proof. reflexivity. Qed.

Lemma same_but_address_trans (w w1 w2 : Portis) :
  same_but_address w w1 → same_but_address w1 w2 → same_but_address w w2.
Proof.
  unfold same_but_address, set_selectedAddress. intros H1 H2.
  destruct w, w1, w2; simpl in *. congruence.
Qed.

Lemma same_but_address_fields (w w' : Portis) :
  same_but_address w w' →
  config w' = config w ∧ widget w' = widget w ∧ provider w' = provider w
  ∧ _widgetUrl w' = _widgetUrl w ∧ _onLoginCallback w' = _onLoginCallback w.
Proof. by intros ->. Qed.

Lemma call_in_order_frame (w w' : Portis) (t : trace) :
  same_but_address w w' →
  Forall (call_in_order w') t → Forall (call_in_order w) t.
Proof.
  intros Hs. apply same_but_address_fields in Hs as (Hc & Hw & _).
  intros H. eapply Forall_impl; [exact H |].
  intros e. destruct e; simpl; try done.
  by rewrite Hc, Hw.
Qed.

(** A computation that writes nothing but the selected address and whose
    remote calls are in order. *)
Definition tidy {A} (m : M A) : Prop :=
  ∀ w, same_but_address w (m w).1.2 ∧ Forall (call_in_order w) (m w).2.

Lemma tidy_still (A : Type) (st : step A) (w : Portis) :
  same_but_address w w ∧ Forall (call_in_order w) [].
Proof. split; [apply same_but_address_refl | constructor]. Qed.

Lemma tidy_ret {A} (a : A) : tidy (mret a).
Proof. intros w. apply (tidy_still A (Done a)). Qed.

Lemma tidy_this : tidy this.
Proof. intros w. apply (tidy_still _ (Done w)). Qed.

Lemma tidy_settled {A} (o : settle A) : tidy (settled o).
Proof. intros w. apply (tidy_still A Thrown). Qed.

Lemma tidy_throw {A} : tidy (@throw A).
Proof. intros w. apply (tidy_still A Thrown). Qed.

Lemma tidy_emit (e : event) : (∀ c, e ≠ EvRemote c) → tidy (emit e).
Proof.
  intros He w. split; [apply same_but_address_refl |].
  repeat constructor. destruct e; simpl; try done. by destruct (He c).
Qed.

Lemma tidy_bind {A B} (m : M A) (k : A → M B) :
  tidy m → (∀ a, tidy (k a)) → tidy (m ≫= k).
Proof.
  intros Hm Hk w. specialize (Hm w). unfold mbind, M_bind.
  destruct (m w) as [[[a | |] w1] t1]; simpl in *; try done.
  specialize (Hk a w1). destruct (k a w1) as [[st w2] t2]; simpl in *.
  destruct Hm as [Hs1 Hq1], Hk as [Hs2 Hq2]. split.
  - by eapply same_but_address_trans.
  - apply Forall_app. split; [done |]. by eapply call_in_order_frame.
Qed.

(** The shape shared by every user of the widget: await the session, make
    one remote call with the current config, continue with its reply. *)
Lemma tidy_remote {A B} (call : ISDKConfig → remoteCall)
    (reply_of : IConnectionMethods → ISDKConfig → settle B) (k : B → M A) :
  (∀ cfg, config_of (call cfg) = cfg) →
  (∀ b, tidy (k b)) →
  tidy (comm ← widgetCommunication;
        w ← this;
        emit (EvRemote (call (config w)));;
        r ← settled (reply_of comm (config w));
        k r).
Proof.
  intros Hcall Hk w. unfold mbind, M_bind.
  rewrite widgetCommunication_run.
  destruct (promise_outcome (widget w)) as [session | |] eqn:Hw; simpl;
    [| split; [apply same_but_address_refl | repeat constructor]..].
  unfold_M. simpl.
  destruct (reply_of (communication session) (config w)) as [b | |]; simpl;
    [| split; [apply same_but_address_refl | repeat constructor; eauto]..].
  specialize (Hk b w). destruct (k b w) as [[st w2] t2]; simpl in *.
  destruct Hk as [Hs Hq]. split; [done |].
  repeat constructor; eauto.
Qed.

Lemma tidy_getAccounts : tidy Hooks.getAccounts.
Proof.
  apply (tidy_remote RGetAccounts remote_getAccounts); [done |].
  intros r. apply tidy_bind; [| intros _; apply tidy_ret].
  destruct (negb (truthy (error r)) && truthy (result r)); [| apply tidy_ret].
  intros w. split; [apply same_but_address_set | constructor].
Qed.

Lemma tidy_signTransaction (txParams : object) :
  tidy (Hooks.signTransaction txParams).
Proof.
  apply (tidy_remote (RSignTransaction txParams)
           (λ comm, remote_signTransaction comm txParams)); [done |].
  intros r. apply tidy_ret.
Qed.

Lemma tidy_sign (params : object) :
  tidy (comm ← widgetCommunication;
        w ← this;
        emit (EvRemote (RSignMessage params (config w)));;
        r ← settled (remote_signMessage comm params (config w));
        mret r).
Proof.
  apply (tidy_remote (RSignMessage params)
           (λ comm, remote_signMessage comm params)); [done |].
  intros r. apply tidy_ret.
Qed.

Lemma tidy_showPortis : tidy showPortis.
Proof.
  intros w. unfold showPortis, mbind, M_bind.
  rewrite widgetCommunication_run.
  destruct (promise_outcome (widget w)) as [session | |] eqn:Hw; simpl;
    [| split; [apply same_but_address_refl | repeat constructor]..].
  unfold_M. simpl.
  destruct (remote_showPortis (communication session) (config w)); simpl;
    (split; [apply same_but_address_refl | repeat constructor; eauto]).
Qed.

Lemma tidy_login : tidy login.
Proof.
  intros w. unfold login, mbind, M_bind.
  rewrite widgetCommunication_run.
  destruct (promise_outcome (widget w)) as [session | |] eqn:Hw; simpl;
    [| split; [apply same_but_address_refl | repeat constructor]..].
  unfold_M. simpl.
  destruct (remote_login (communication session) (config w)); simpl;
    (split; [apply same_but_address_refl | repeat constructor; eauto]).
Qed.

Lemma tidy_relay (p : IPayload) : tidy (relay_handleRequest p).
Proof.
  apply (tidy_remote (RRelay p) (λ comm, remote_relay comm p)); [done |].
  intros r. apply tidy_ret.
Qed.

Section Frame.

Variable lib : Library.

Lemma tidy_run_hook (h : hookCall) : tidy (run_hook lib h).
Proof.
  destruct h; simpl.
  - apply tidy_getAccounts.
  - apply tidy_signTransaction.
  - apply tidy_sign.
  - apply tidy_sign.
  - apply tidy_sign.
  - unfold estimateGas.
    apply tidy_bind; [apply tidy_settled | intros g; apply tidy_ret].
  - apply tidy_ret.
Qed.

Lemma tidy_run_wallet (prog : walletProgram) : tidy (run_wallet lib prog).
Proof.
  induction prog as [a | h k IH]; simpl; [apply tidy_ret |].
  apply tidy_bind; [apply tidy_run_hook | intros r; apply IH].
Qed.

Lemma tidy_handleRequest (s : subprovider) (p : IPayload) :
  tidy (handleRequest lib s p).
Proof.
  destruct s; simpl; try apply tidy_ret.
  - apply tidy_run_wallet.
  - apply tidy_relay.
Qed.

Lemma tidy_walk (stack : list subprovider) (p : IPayload) :
  tidy (walk lib stack p).
Proof.
  induction stack as [| s rest IH]; simpl; [apply tidy_ret |].
  apply tidy_bind; [by apply tidy_emit | intros _].
  apply tidy_bind; [apply tidy_handleRequest | intros [| e r]].
  - apply tidy_bind; [by apply tidy_emit | intros _; apply IH].
  - apply tidy_bind; [by apply tidy_emit | intros _; apply tidy_ret].
Qed.

Lemma tidy_sendAsync (p : IPayload) : tidy (sendAsync lib p).
Proof.
  unfold sendAsync.
  apply tidy_bind; [by apply tidy_emit | intros _].
  apply tidy_bind; [apply tidy_this | intros w].
  apply tidy_bind; [apply tidy_walk | intros [e r |]]; apply tidy_ret.
Qed.

Lemma tidy_enable : tidy (enable lib).
Proof.
  unfold enable.
  apply tidy_bind; [apply tidy_sendAsync | intros [e response]].
  destruct (truthy e); [apply tidy_throw | apply tidy_ret].
Qed.

Lemma send_tidy (p : IPayload) (callback : bool) (w : Portis) :
  same_but_address w (send lib p callback w).1.2
  ∧ Forall (call_in_order w) (send lib p callback w).2.
Proof.
  pose proof (tidy_sendAsync p w) as Ha.
  unfold send. destruct callback.
  - destruct (sendAsync lib p w) as [[[[e r] | |] w1] t1]; exact Ha.
  - repeat (destruct (String.eqb _ _); simpl;
            [apply (tidy_still unit Thrown) |]).
    destruct (String.eqb _ _); simpl; [| apply (tidy_still unit Thrown)].
    destruct (sendAsync lib p w) as [[st w1] t1]; exact Ha.
Qed.

Lemma exec_tidy {A} (m : M A) (w : Portis) :
  tidy m →
  same_but_address w (exec m w).1 ∧ Forall (call_in_order w) (exec m w).2.
Proof.
  intros Hm. specialize (Hm w). unfold exec.
  destruct (m w) as [[st w1] t1]; exact Hm.
Qed.

(** Operations through the provider, the widget and the local methods
    write nothing but the selected address. *)
Lemma perform_tidy (o : operation) (w : Portis) :
  (∀ network, o ≠ OpChangeNetwork network) →
  (∀ email, o ≠ OpSetDefaultEmail email) →
  (∀ callback, o ≠ OpOnLogin callback) →
  same_but_address w (perform lib o w).1.
Proof.
  intros H1 H2 H3. destruct o; simpl.
  - by destruct (H1 network0).
  - by destruct (H2 email).
  - apply exec_tidy, tidy_showPortis.
  - apply exec_tidy, tidy_login.
  - by destruct (H3 callback).
  - pose proof (send_tidy payload callback w) as [H _].
    by destruct (send lib payload callback w) as [[st w1] t1].
  - apply exec_tidy, tidy_sendAsync.
  - apply exec_tidy, tidy_enable.
  - unfold exec, _setHeight. unfold_M. simpl.
    destruct (promise_outcome (widget w)); apply same_but_address_refl.
  - apply same_but_address_refl.
  - unfold exec, _onLogin. unfold_M. simpl.
    destruct (_onLoginCallback w); apply same_but_address_refl.
Qed.

Lemma perform_calls (o : operation) (w : Portis) :
  Forall (call_in_order w) (perform lib o w).2.
Proof.
  destruct o; simpl; try by constructor.
  - unfold exec, changeNetwork.
    destruct (networkAdapter lib network0); constructor.
  - apply exec_tidy, tidy_showPortis.
  - apply exec_tidy, tidy_login.
  - pose proof (send_tidy payload callback w) as [_ H].
    by destruct (send lib payload callback w) as [[st w1] t1].
  - apply exec_tidy, tidy_sendAsync.
  - apply exec_tidy, tidy_enable.
  - unfold exec, _setHeight. unfold_M. simpl.
    destruct (promise_outcome (widget w)); repeat constructor.
  - unfold exec, _onLogin. unfold_M. simpl.
    destruct (_onLoginCallback w); repeat constructor.
Qed.

End Frame.

Lemma remote_calls_app (t1 t2 : trace) :
  remote_calls (t1 ++ t2) = remote_calls t1 ++ remote_calls t2.
Proof. apply omap_app. Qed.

Lemma remote_call_in_order (w : Portis) (t : trace) (c : remoteCall) :
  Forall (call_in_order w) t → c ∈ remote_calls t →
  config_of c = config w ∧ ∃ session, promise_outcome (widget w) = Fulfilled session.
Proof.
  intros Hq Hin. apply list_elem_of_omap in Hin as (e & He & Hc).
  rewrite Forall_forall in Hq. specialize (Hq e He).
  destruct e; try discriminate. by injection Hc as <-.
Qed.

Lemma no_session_no_call (w : Portis) (t : trace) :
  (∀ session, promise_outcome (widget w) ≠ Fulfilled session) →
  Forall (call_in_order w) t → remote_calls t = [].
Proof.
  intros Hno Hq. destruct (remote_calls t) as [| c rest] eqn:E; [done |].
  destruct (remote_call_in_order w t c Hq) as (_ & session & Hs).
  - rewrite E. left.
  - by destruct (Hno session).
Qed.

(** X3: as long as the widget session is not there, nothing the caller or
    the widget does with the session places a remote call or changes the
    selected address: [showPortis], [login], the hooks and the relay stage
    all stop at their await of the widget promise. *)
Theorem no_session_no_remote_call
    (lib : Library) (w : Portis) (ops : list operation) :
  (∀ session, promise_outcome (widget w) ≠ Fulfilled session) →
  remote_calls (perform_all lib ops w).2 = []
  ∧ selectedAddress (perform_all lib ops w).1 = selectedAddress w.
Proof.
  revert w. induction ops as [| o rest IH]; intros w Hno; [done |].
  simpl.
  pose proof (perform_calls lib o w) as Hq.
  pose proof (perform_kept lib o w) as (Hw & _ & _ & Hsel).
  destruct (perform lib o w) as [w1 t1]; simpl in *.
  assert (Hno1 : ∀ session, promise_outcome (widget w1) ≠ Fulfilled session)
    by (by rewrite Hw).
  specialize (IH w1 Hno1).
  destruct (perform_all lib rest w1) as [w2 t2]; simpl in *.
  destruct IH as [IHc IHa]. split.
  - by rewrite remote_calls_app, IHc, (no_session_no_call w t1 Hno Hq).
  - rewrite IHa. destruct Hsel as [Hsame | (session & r & Hs & _)]; [done |].
    by destruct (Hno session).
Qed.

Lemma no_session_no_remote_call_witness :
  let ops := [OpShowPortis; OpSendAsync (Example.request "eth_accounts");
              OpSend (Example.request "eth_blockNumber") true; OpEnable; OpLogin] in
  remote_calls (perform_all Example.lib ops Offline.portis).2 = []
  ∧ selectedAddress (perform_all Example.lib ops Offline.portis).1 = JUndefined.
Proof.
  intros ops.
  apply (no_session_no_remote_call Example.lib Offline.portis ops).
  intros session. discriminate.
Defined.

(** ** Who writes which field *)

Lemma perform_keeps_address (lib : Library) (o : operation) (w : Portis) :
  (∀ p callback, o ≠ OpSend p callback) →
  (∀ p, o ≠ OpSendAsync p) →
  o ≠ OpEnable →
  selectedAddress (perform lib o w).1 = selectedAddress w.
Proof.
  intros H1 H2 H3. destruct o; simpl; try done.
  - unfold exec, changeNetwork. by destruct (networkAdapter lib network0).
  - assert (H : keeps_address showPortis) by (unfold showPortis; keeps).
    specialize (H w). unfold exec. by destruct (showPortis w) as [[st w1] t1].
  - assert (H : keeps_address login) by (unfold login; keeps).
    specialize (H w). unfold exec. by destruct (login w) as [[st w1] t1].
  - by destruct (H1 payload callback).
  - by destruct (H2 payload).
  - unfold exec, _setHeight. unfold_M. simpl.
    by destruct (promise_outcome (widget w)).
  - unfold exec, _onLogin. unfold_M. simpl.
    by destruct (_onLoginCallback w).
Qed.

(** X5: each field of the session has its own writers.  No operation
    changes [dappId], [version], [scope], the provider, the widget url or
    the widget promise; the network changes only by [changeNetwork], the
    default email only by [setDefaultEmail], the login callback only by
    [onLogin], and the selected address only by a request through the
    provider ([send], [sendAsync], [enable]): [showPortis], [login] and the
    widget's [onLogin] notification never write it. *)
Theorem operations_write_sets (lib : Library) (o : operation) (w : Portis) :
  let w' := (perform lib o w).1 in
  (dappId (config w') = dappId (config w)
   ∧ version (config w') = version (config w)
   ∧ scope (config w') = scope (config w)
   ∧ provider w' = provider w
   ∧ _widgetUrl w' = _widgetUrl w
   ∧ widget w' = widget w)
  ∧ (network (config w') ≠ network (config w) → ∃ net, o = OpChangeNetwork net)
  ∧ (defaultEmail (config w') ≠ defaultEmail (config w) →
     ∃ email, o = OpSetDefaultEmail email)
  ∧ (_onLoginCallback w' ≠ _onLoginCallback w → ∃ callback, o = OpOnLogin callback)
  ∧ (selectedAddress w' ≠ selectedAddress w →
     (∃ p callback, o = OpSend p callback) ∨ (∃ p, o = OpSendAsync p) ∨ o = OpEnable).
Proof.
  intros w'. subst w'.
  assert (Hframe : (∃ net, o = OpChangeNetwork net)
                   ∨ (∃ email, o = OpSetDefaultEmail email)
                   ∨ (∃ callback, o = OpOnLogin callback)
                   ∨ same_but_address w (perform lib o w).1).
  { destruct o; eauto; do 3 right; by apply perform_tidy. }
  split; [| split; [| split; [| split]]].
  - destruct Hframe as [[net ->] | [[email ->] | [[callback ->] | Hs]]];
      try done.
    + simpl. unfold exec, changeNetwork. by destruct (networkAdapter lib net).
    + by apply same_but_address_fields in Hs as (-> & -> & -> & -> & _).
  - intros Hne.
    destruct Hframe as [[net ->] | [[email ->] | [[callback ->] | Hs]]];
      eauto; try done.
    apply same_but_address_fields in Hs as (Hc & _). by rewrite Hc in Hne.
  - intros Hne.
    destruct Hframe as [[net ->] | [[email ->] | [[callback ->] | Hs]]];
      eauto; try done.
    + exfalso. apply Hne. simpl. unfold exec, changeNetwork.
      by destruct (networkAdapter lib net).
    + apply same_but_address_fields in Hs as (Hc & _). by rewrite Hc in Hne.
  - intros Hne.
    destruct Hframe as [[net ->] | [[email ->] | [[callback ->] | Hs]]];
      eauto; try done.
    + exfalso. apply Hne. simpl. unfold exec, changeNetwork.
      by destruct (networkAdapter lib net).
    + by apply same_but_address_fields in Hs as (_ & _ & _ & _ & Hcb).
  - intros Hne.
    destruct o; eauto; exfalso; apply Hne; by apply perform_keeps_address.
Qed.

Lemma operations_write_sets_witness :
  selectedAddress (perform Example.lib OpLogin Example.portis).1 = JUndefined
  ∧ selectedAddress
      (perform Example.lib (OpWidgetOnLogin "0xABC" None) Example.portis).1
    = JUndefined.
Proof.
  split.
  - destruct (operations_write_sets Example.lib OpLogin Example.portis)
      as (_ & _ & _ & _ & H).
    destruct (perform Example.lib OpLogin Example.portis) as [w' t] eqn:E.
    simpl in *.
    destruct (selectedAddress w') eqn:Ha; try done;
      (destruct H as [(p & cb & [=]) | [(p & [=]) | [=]]]; discriminate).
  - reflexivity.
Defined.

Lemma perform_callback (lib : Library) (o : operation) (w : Portis) :
  _onLoginCallback (perform lib o w).1 = registered [o] (_onLoginCallback w).
Proof.
  destruct o; try reflexivity;
    try (simpl; unfold exec, changeNetwork;
         by destruct (networkAdapter lib network0));
    match goal with
    | |- _onLoginCallback (perform lib ?op w).1 = _ =>
        assert (Hs : same_but_address w (perform lib op w).1)
          by (by apply perform_tidy);
        by apply same_but_address_fields in Hs as (_ & _ & _ & _ & ->)
    end.
Qed.

(** X6: [_onLogin] calls the callback of the latest [onLogin] registration,
    with the address and email it was given, whatever else was done with
    the session in between, and does nothing when no callback was ever
    registered. *)
Theorem onLogin_latest_registration
    (lib : Library) (ops : list operation) (w : Portis)
    (walletAddress : string) (email : option string) :
  let w' := (perform_all lib ops w).1 in
  _onLoginCallback w' = registered ops (_onLoginCallback w)
  ∧ _onLogin walletAddress email w'
    = (Done (), w',
       match registered ops (_onLoginCallback w) with
       | Some callback => [EvOnLoginCallback callback walletAddress email]
       | None => []
       end).
Proof.
  intros w'. subst w'.
  assert (Hreg : _onLoginCallback (perform_all lib ops w).1
                 = registered ops (_onLoginCallback w)).
  { revert w. induction ops as [| o rest IH]; intros w; [done |].
    assert (Ho : registered (o :: rest) (_onLoginCallback w)
                 = registered rest (_onLoginCallback (perform lib o w).1)).
    { rewrite perform_callback. by destruct o. }
    rewrite Ho. specialize (IH (perform lib o w).1). cbn [perform_all].
    destruct (perform lib o w) as [w1 t1]; simpl in *.
    by destruct (perform_all lib rest w1) as [w2 t2]. }
  split; [exact Hreg |].
  unfold _onLogin. unfold_M. simpl. rewrite Hreg.
  by destruct (registered ops (_onLoginCallback w)).
Qed.

Lemma onLogin_latest_registration_witness :
  let ops := [OpOnLogin 1%nat; OpShowPortis; OpOnLogin 2%nat;
              OpSendAsync (Example.request "eth_accounts")] in
  _onLogin "0xABC" (Some "alice@example.org") (perform_all Example.lib ops Example.portis).1
  = (Done (), (perform_all Example.lib ops Example.portis).1,
     [EvOnLoginCallback 2%nat "0xABC" (Some "alice@example.org")])
  ∧ _onLogin "0xABC" None Example.portis = (Done (), Example.portis, []).
Proof.
  intros ops. split.
  - apply (onLogin_latest_registration Example.lib ops Example.portis).
  - apply (onLogin_latest_registration Example.lib [] Example.portis).
Defined.

(** ** The other users of the widget channel *)

(** X7: once the widget session is there, the [signTransaction] hook awaits
    the widget promise, calls the remote [signTransaction] with the
    transaction parameters exactly as it got them and the current config,
    and hands the reply to its callback unchanged; when that call rejects
    or never settles the callback is never called.  The session is left as
    it was. *)
Theorem signTransaction_forwards_verbatim
    (w : Portis) (session : WidgetSession) (txParams : object) :
  promise_outcome (widget w) = Fulfilled session →
  Hooks.signTransaction txParams w
  = (match remote_signTransaction (communication session) txParams (config w) with
     | Fulfilled r => Done r
     | Rejected => Thrown
     | Pending => Suspended
     end,
     w,
     [EvAwait (promise_id (widget w)); EvRemote (RSignTransaction txParams (config w))]).
Proof.
  intros Hw. unfold Hooks.signTransaction, mbind, M_bind.
  rewrite widgetCommunication_run, Hw. unfold_M. simpl.
  by destruct (remote_signTransaction (communication session) txParams (config w)).
Qed.

Lemma signTransaction_forwards_verbatim_witness :
  Hooks.signTransaction Offline.transaction Example.portis
  = (Done {| error := JNull; result := JStr "0xsignedtx" |}, Example.portis,
     [EvAwait 0; EvRemote (RSignTransaction Offline.transaction Example.cfg)]).
Proof.
  exact (signTransaction_forwards_verbatim Example.portis
           (Example.session_of Example.comm) Offline.transaction eq_refl).
Defined.

(** X8: once the widget session is there, [showPortis] and [login] each
    await the widget promise and place one call, on the remote [showPortis]
    and the remote [login] respectively, with the current config; the
    promise they return settles as the remote call does, rejecting when it
    rejects.  Neither changes the session. *)
Theorem showPortis_and_login_mirror_remote (w : Portis) (session : WidgetSession) :
  promise_outcome (widget w) = Fulfilled session →
  showPortis w
  = (match remote_showPortis (communication session) (config w) with
     | Fulfilled u => Done u
     | Rejected => Thrown
     | Pending => Suspended
     end,
     w, [EvAwait (promise_id (widget w)); EvRemote (RShowPortis (config w))])
  ∧ login w
    = (match remote_login (communication session) (config w) with
       | Fulfilled u => Done u
       | Rejected => Thrown
       | Pending => Suspended
       end,
       w, [EvAwait (promise_id (widget w)); EvRemote (RLogin (config w))]).
Proof.
  intros Hw. unfold showPortis, login, mbind, M_bind.
  rewrite widgetCommunication_run, Hw. unfold_M. simpl.
  split.
  - by destruct (remote_showPortis (communication session) (config w)).
  - by destruct (remote_login (communication session) (config w)).
Qed.

Lemma showPortis_and_login_mirror_remote_witness :
  showPortis Example.portis
  = (Done (), Example.portis, [EvAwait 0; EvRemote (RShowPortis Example.cfg)])
  ∧ login Example.portis
    = (Done (), Example.portis, [EvAwait 0; EvRemote (RLogin Example.cfg)]).
Proof.
  exact (showPortis_and_login_mirror_remote Example.portis
           (Example.session_of Example.comm) eq_refl).
Defined.

Lemma sign_call_params (w : Portis) (msgParams params : object)
    (standard : string) (cfg : ISDKConfig) :
  RSignMessage params cfg
  ∈ remote_calls
      ((comm ← widgetCommunication;
        let params :=
          Object_assign ∅ [msgParams; {[ "messageStandard" := JStr standard ]}] in
        w ← this;
        emit (EvRemote (RSignMessage params (config w)));;
        r ← settled (remote_signMessage comm params (config w));
        mret r) w).2 →
  params = <[ "messageStandard" := JStr standard ]> msgParams.
Proof.
  rewrite Object_assign_standard. unfold mbind, M_bind.
  rewrite widgetCommunication_run.
  destruct (promise_outcome (widget w)) as [session | |]; simpl;
    try (intros Hin; by apply elem_of_nil in Hin).
  unfold_M. simpl.
  destruct (remote_signMessage (communication session) _ (config w)); simpl;
    intros Hin; apply list_elem_of_singleton in Hin; by injection Hin.
Qed.

(** X10: whatever the caller put under [messageStandard], the widget sees
    the name of the hook that was called: the parameters a signing hook
    transmits hold the hook's own name under [messageStandard] and the
    caller's value under every other key. *)
Theorem messageStandard_overrides_caller (w : Portis) (msgParams : object) :
  let sent (hook : object → M reply) (standard : string) :=
    ∀ params cfg,
      RSignMessage params cfg ∈ remote_calls (hook msgParams w).2 →
      params !! "messageStandard" = Some (JStr standard)
      ∧ ∀ key, key ≠ "messageStandard" → params !! key = msgParams !! key in
  sent Hooks.signMessage "signMessage"
  ∧ sent Hooks.signPersonalMessage "signPersonalMessage"
  ∧ sent Hooks.signTypedMessage "signTypedMessage".
Proof.
  intros sent. subst sent. simpl.
  split; [| split]; intros params cfg Hin;
    apply sign_call_params in Hin as ->;
    (split; [apply lookup_insert_eq | intros key Hk; by apply lookup_insert_ne]).
Qed.

Lemma messageStandard_overrides_caller_witness :
  let given := <[ "messageStandard" := JStr "signMessage" ]> Example.message in
  let sent := <[ "messageStandard" := JStr "signPersonalMessage" ]> given in
  remote_calls (Hooks.signPersonalMessage given Example.portis).2
  = [RSignMessage sent Example.cfg]
  ∧ sent !! "messageStandard" = Some (JStr "signPersonalMessage")
  ∧ sent !! "data" = Some (JStr "0xdeadbeef").
Proof.
  intros given sent.
  assert (Hcalls : remote_calls (Hooks.signPersonalMessage given Example.portis).2
                   = [RSignMessage sent Example.cfg]).
  { destruct (hooks_defer_to_widget Example.portis
                (Example.session_of Example.comm) eq_refl) as (_ & _ & H & _).
    by destruct (H given) as (_ & -> & _). }
  split; [exact Hcalls |].
  destruct (messageStandard_overrides_caller Example.portis given)
    as (_ & Hpersonal & _).
  destruct (Hpersonal sent Example.cfg) as [Hstd Hrest].
  - rewrite Hcalls. left.
  - split; [exact Hstd |]. by rewrite Hrest.
Defined.

(** ** Enabling the provider *)

Lemma fixture_passes_accounts (version : string) :
  fixture_table version !! "eth_accounts" = None.
Proof.
  destruct (fixture_table version !! "eth_accounts") as [v |] eqn:E; [| done].
  assert (H : is_Some (fixture_table version !! "eth_accounts")) by eauto.
  apply fixture_table_methods in H. unfold fixture_methods in H.
  rewrite ?elem_of_cons, elem_of_nil in H. intuition discriminate.
Qed.

Lemma enable_run (lib : Library) (w : Portis) (session : WidgetSession) (r : reply) :
  reachable lib w →
  cacheStage lib accounts_request = Next →
  subscriptionsStage lib accounts_request = Next →
  filterStage lib accounts_request = Next →
  nonceStage lib accounts_request = Next →
  hookedWalletStage lib accounts_request = accounts_program →
  promise_outcome (widget w) = Fulfilled session →
  remote_getAccounts (communication session) (config w) = Fulfilled r →
  enable lib w
  = (if truthy (error r) then Thrown else Done (result r),
     if accounts_accepted r then set_selectedAddress (index0 (result r)) w else w,
     EvSendAsync accounts_request
     :: passed_on [Fixture; Cache; Subscriptions; Filter; Nonce]
     ++ [EvHandleRequest HookedWallet; EvAwait (promise_id (widget w));
         EvRemote (RGetAccounts (config w));
         EvEnd HookedWallet (error r) (result r)]).
Proof.
  intros Hreach Hcache Hsubs Hfilter Hnonce Hwallet Hw Hr.
  unfold enable, mbind, M_bind. fold accounts_request.
  rewrite sendAsync_unfold, (reachable_provider lib w Hreach). simpl app.
  rewrite walk_cons. simpl handleRequest. unfold fixture_handleRequest.
  rewrite fixture_passes_accounts. unfold mret at 1, M_ret at 1.
  rewrite walk_cons. simpl handleRequest. rewrite Hcache. unfold mret at 1, M_ret at 1.
  rewrite walk_cons. simpl handleRequest. rewrite Hsubs. unfold mret at 1, M_ret at 1.
  rewrite walk_cons. simpl handleRequest. rewrite Hfilter. unfold mret at 1, M_ret at 1.
  rewrite walk_cons. simpl handleRequest. rewrite Hnonce. unfold mret at 1, M_ret at 1.
  rewrite walk_cons. simpl handleRequest. rewrite Hwallet.
  unfold accounts_program. simpl run_wallet. unfold mbind, M_bind.
  rewrite (getAccounts_run w session r Hw Hr).
  unfold accounts_accepted. unfold_M. simpl.
  destruct (truthy (error r)); simpl; [done |].
  by destruct (truthy (result r)).
Qed.

(** X11: on a session whose library stages pass [eth_accounts] on to the
    hooked-wallet stage and whose hooked-wallet stage answers it with the
    [getAccounts] hook, [enable] places exactly one remote call,
    [getAccounts] with the current config; its promise rejects when the
    reply carries an error and otherwise resolves to the reply's result;
    the selected address is written as the hook's guard decides and the
    relay stage is not reached.  After a reply without error whose
    list starts with a non-empty address, a callback-free [eth_accounts]
    query returns that address. *)
Theorem enable_selects_first_account
    (lib : Library) (w : Portis) (session : WidgetSession) (r : reply) :
  reachable lib w →
  cacheStage lib accounts_request = Next →
  subscriptionsStage lib accounts_request = Next →
  filterStage lib accounts_request = Next →
  nonceStage lib accounts_request = Next →
  hookedWalletStage lib accounts_request = accounts_program →
  promise_outcome (widget w) = Fulfilled session →
  remote_getAccounts (communication session) (config w) = Fulfilled r →
  (enable lib w).1.1 = (if truthy (error r) then Thrown else Done (result r))
  ∧ (enable lib w).1.2
    = (if accounts_accepted r then set_selectedAddress (index0 (result r)) w else w)
  ∧ remote_calls (enable lib w).2 = [RGetAccounts (config w)]
  ∧ observed (enable lib w).2
    = [Fixture; Cache; Subscriptions; Filter; Nonce; HookedWallet]
  ∧ (∀ a rest p,
       truthy (error r) = false → result r = JArr (JStr a :: rest) → a ≠ "" →
       payload_method p = "eth_accounts" →
       (send lib p false (enable lib w).1.2).1.1
       = Returned {| resp_id := payload_id p; resp_jsonrpc := payload_jsonrpc p;
                     resp_body := RResult (JArr [JStr a]) |}).
Proof.
  intros Hreach Hcache Hsubs Hfilter Hnonce Hwallet Hw Hr.
  rewrite (enable_run lib w session r Hreach Hcache Hsubs Hfilter Hnonce Hwallet Hw Hr).
  split; [done |]. split; [done |]. split; [done |]. split; [done |].
  intros a rest p He Hres Ha Hp. cbn [fst snd].
  unfold accounts_accepted. rewrite He, Hres. simpl.
  unfold send. rewrite Hp. simpl.
  apply String.eqb_neq in Ha. by rewrite Ha.
Qed.

Lemma enable_selects_first_account_witness :
  (enable Example.lib Example.portis).1.1 = Done (JArr [JStr "0xABC"])
  ∧ (send Example.lib (Example.request "eth_accounts") false
       (enable Example.lib Example.portis).1.2).1.1
    = Returned {| resp_id := JNum 7; resp_jsonrpc := JStr "2.0";
                  resp_body := RResult (JArr [JStr "0xABC"]) |}.
Proof.
  destruct (enable_selects_first_account Example.lib Example.portis
              (Example.session_of Example.comm)
              {| error := JNull; result := JArr [JStr "0xABC"] |}
              example_reachable eq_refl eq_refl eq_refl eq_refl eq_refl
              eq_refl eq_refl) as (Hres & _ & _ & _ & Hsync).
  split; [exact Hres |].
  apply (Hsync "0xABC" [] (Example.request "eth_accounts")); try reflexivity.
  discriminate.
Defined.

(** ** The config setters *)

(** X14: with networks that [networkAdapter] accepts, the two config
    setters compose as independent last-write-wins fields: [changeNetwork]
    and [setDefaultEmail] commute, of two calls of the same setter only the
    second shows, and after both the config holds the adapted network and
    the email.  With a network for which [networkAdapter] throws,
    [changeNetwork] throws and leaves the session as it was, so the earlier
    network and the other setter's email stay. *)
Theorem config_setters_compose
    (lib : Library) (w : Portis) (net net' bad : jsval) (email email' : string)
    (n n' : INetwork) (message : string) :
  networkAdapter lib net = Adapted n →
  networkAdapter lib net' = Adapted n' →
  networkAdapter lib bad = AdapterThrew message →
  perform_all lib [OpChangeNetwork net; OpSetDefaultEmail email] w
  = perform_all lib [OpSetDefaultEmail email; OpChangeNetwork net] w
  ∧ perform_all lib [OpChangeNetwork net; OpChangeNetwork net'] w
    = perform_all lib [OpChangeNetwork net'] w
  ∧ perform_all lib [OpSetDefaultEmail email; OpSetDefaultEmail email'] w
    = perform_all lib [OpSetDefaultEmail email'] w
  ∧ config (perform_all lib [OpChangeNetwork net; OpSetDefaultEmail email] w).1
    = {| dappId := dappId (config w); network := n;
         version := version (config w); defaultEmail := Some email;
         scope := scope (config w) |}
  ∧ changeNetwork lib bad w = (Thrown, w, [])
  ∧ perform_all lib [OpChangeNetwork net; OpSetDefaultEmail email;
                     OpChangeNetwork bad] w
    = perform_all lib [OpChangeNetwork net; OpSetDefaultEmail email] w.
Proof.
  intros Hnet Hnet' Hbad.
  unfold perform_all, perform, exec, changeNetwork.
  rewrite Hnet, Hnet', Hbad.
  split; [reflexivity |].
  split; [reflexivity |].
  split; [reflexivity |].
  split; [reflexivity |].
  split; reflexivity.
Qed.

Lemma config_setters_compose_witness :
  network (config (perform_all Example.lib
                     [OpChangeNetwork (JStr "mainnet"); OpSetDefaultEmail "a@b.c";
                      OpChangeNetwork (JStr "nonexistent")] Example.portis).1)
  = Example.mainnet
  ∧ defaultEmail (config (perform_all Example.lib
                     [OpChangeNetwork (JStr "mainnet"); OpSetDefaultEmail "a@b.c";
                      OpChangeNetwork (JStr "nonexistent")] Example.portis).1)
    = Some "a@b.c"
  ∧ (changeNetwork Example.lib (JStr "nonexistent") Example.portis).1.1 = Thrown.
Proof.
  destruct (config_setters_compose Example.lib Example.portis
              (JStr "mainnet") (JStr "mainnet") (JStr "nonexistent")
              "a@b.c" "d@e.f" Example.mainnet Example.mainnet
              "[Portis] illegal 'network' parameter."
              eq_refl eq_refl eq_refl)
    as (_ & _ & _ & Hconfig & Hthrown & Hkept).
  rewrite Hkept, Hconfig, Hthrown. by repeat split.
Defined.

(** ** The local methods *)

Lemma or_else_nonzero (a b : Z) : a ≠ 0 → or_else a b = a.
Proof. intros H. unfold or_else. apply Z.eqb_neq in H. by rewrite H. Qed.

Lemma or_else_zero (b : Z) : or_else 0 b = b.
Proof. reflexivity. Qed.

(** X15: [_getWindowSize] reports, for the width and for the height
    separately, the window's metric when it is not zero, else the document
    element's when that is not zero, else the body's; it touches neither
    the session nor the widget. *)
Theorem getWindowSize_fallback (m : WindowMetrics) (w : Portis) :
  ∃ width height,
    _getWindowSize m w = (Done (width, height), w, [])
    ∧ (innerWidth m ≠ 0 → width = innerWidth m)
    ∧ (innerWidth m = 0 → documentClientWidth m ≠ 0 → width = documentClientWidth m)
    ∧ (innerWidth m = 0 → documentClientWidth m = 0 → width = bodyClientWidth m)
    ∧ (innerHeight m ≠ 0 → height = innerHeight m)
    ∧ (innerHeight m = 0 → documentClientHeight m ≠ 0 → height = documentClientHeight m)
    ∧ (innerHeight m = 0 → documentClientHeight m = 0 → height = bodyClientHeight m).
Proof.
  eexists _, _. split; [reflexivity |].
  split; [| split; [| split; [| split; [| split]]]].
  - intros H. rewrite (or_else_nonzero (innerWidth m) _ H).
    by apply or_else_nonzero.
  - intros -> H. rewrite or_else_zero. by apply or_else_nonzero.
  - by intros -> ->.
  - intros H. rewrite (or_else_nonzero (innerHeight m) _ H).
    by apply or_else_nonzero.
  - intros -> H. rewrite or_else_zero. by apply or_else_nonzero.
  - by intros -> ->.
Qed.

Lemma getWindowSize_fallback_witness :
  _getWindowSize Offline.metrics Example.portis
  = (Done (1024, 768), Example.portis, []).
Proof.
  destruct (getWindowSize_fallback Offline.metrics Example.portis)
    as (width & height & Hrun & _ & _ & Hw & Hh & _).
  rewrite Hrun, (Hw eq_refl eq_refl), Hh; [reflexivity | discriminate].
Defined.

(** ** A relay round trip that does not resolve *)

(** X16: a request that reaches the relay stage is answered only by the
    relay round trip: when the widget session is not there, or the round
    trip rejects or never settles, the relay stage calls neither [next] nor
    [end], no stage ends the request and the caller's callback is never
    called; no error is raised in its place. *)
Theorem relay_failure_leaves_request_unanswered
    (lib : Library) (w : Portis) (p : IPayload) :
  reachable lib w →
  EvNext HookedWallet ∈ (sendAsync lib p w).2 →
  (∀ session r,
     promise_outcome (widget w) = Fulfilled session →
     remote_relay (communication session) p (config w) ≠ Fulfilled r) →
  (∀ answer, (sendAsync lib p w).1.1 ≠ Done answer)
  ∧ (send lib p true w).1.1 = NotCalledBack
  ∧ dispatch (sendAsync lib p w).2
    = passed_on [Fixture; Cache; Subscriptions; Filter; Nonce; HookedWallet]
      ++ [EvHandleRequest Relay].
Proof.
  intros Hreach Hnext Hno.
  destruct (backstop_run lib w p Hreach Hnext) as (w1 & t1 & Hsix & Hc & Hw & Hlog).
  pose proof (reachable_provider lib w Hreach) as Hstack.
  fold stages_before_relay in Hstack.
  assert (Hno1 : ∀ session r,
            promise_outcome (widget w1) = Fulfilled session →
            remote_relay (communication session) p (config w1) ≠ Fulfilled r)
    by (by rewrite Hw, Hc).
  destruct (relay_unanswered p w1 Hno1) as [Hnever _].
  pose proof (silent_handleRequest lib RelaySubprovider p w1) as Hsilent.
  assert (Hrun : ∃ st w2 t2,
            sendAsync lib p w = (st, w2, EvSendAsync p :: t1 ++ EvHandleRequest Relay :: t2)
            ∧ (∀ answer, st ≠ Done answer) ∧ dispatch t2 = []).
  { rewrite sendAsync_unfold, Hstack, walk_app, Hsix, walk_cons.
    simpl handleRequest in *.
    destruct (relay_handleRequest p w1) as [[[a | |] w2] t2]; simpl in *.
    - by destruct (Hnever a).
    - exists Thrown, w2, t2. done.
    - exists Suspended, w2, t2. done. }
  destruct Hrun as (st & w2 & t2 & Hrun & Hst & Ht2).
  split; [by rewrite Hrun |]. split.
  - unfold send. rewrite Hrun. destruct st as [[e r] | |]; try done.
    by destruct (Hst (e, r)).
  - rewrite Hrun. simpl.
    change (dispatch (EvSendAsync p :: t1 ++ EvHandleRequest Relay :: t2))
      with (dispatch (t1 ++ [EvHandleRequest Relay] ++ t2)).
    by rewrite !dispatch_app, Hlog, Ht2.
Qed.

Lemma offline_reachable : reachable Example.lib Offline.portis.
Proof.
  exists Offline.env, (JStr "my-dapp"), (JStr "mainnet"), Example.no_options,
    Offline.portis, (onload_effects widgetUrl 1500000000000),
    [EvAddEventListener "load"], [].
  split; reflexivity.
Defined.

Lemma relay_failure_leaves_request_unanswered_witness :
  (send Example.lib (Example.request "eth_blockNumber") true Offline.portis).1.1
  = NotCalledBack
  ∧ dispatch (sendAsync Example.lib (Example.request "eth_blockNumber") Offline.portis).2
    = passed_on [Fixture; Cache; Subscriptions; Filter; Nonce; HookedWallet]
      ++ [EvHandleRequest Relay].
Proof.
  destruct (relay_failure_leaves_request_unanswered Example.lib Offline.portis
              (Example.request "eth_blockNumber") offline_reachable)
    as (_ & Hsend & Hlog).
  - apply list_elem_of_lookup. by exists 12%nat.
  - intros session r. discriminate.
  - split; [exact Hsend | exact Hlog].
Defined.
